(** * OAuth request option of the Anthropic Go SDK: model and properties

    Shallow embedding of package [oauth] (credential resolution from the
    environment, the [anthropic-beta] header merge of [oauthMiddleware], the
    [User-Agent] override and the [beta=true] query marker), together with
    the parts of Go's [strings], [net/http] and [net/url] packages the code
    calls.  Go strings are byte sequences; they are modelled by [string],
    whose characters are the 256 byte values. *)

From Stdlib Require Import Ascii String List Bool Arith Lia Permutation.
From stdpp Require Import base option list gmap strings fin_maps sets.
Import ListNotations.
Local Open Scope string_scope.
Local Open Scope list_scope.
Local Open Scope nat_scope.
Set Warnings "-clear-no-such-hyp".

(** ** Package [strings] *)

Module strings.

(** [strings.Join(elems, sep)]. *)
Fixpoint Join (elems : list string) (sep : string) : string :=
  match elems with
  | [] => ""
  | [e] => e
  | e :: rest => e +:+ sep +:+ Join rest sep
  end.

(** [strings.Split(s, sep)] for a separator of one byte, the only use the
    package makes of it.  The result always has at least one element:
    [Split "" ","] is [[""]]. *)
Fixpoint Split (s : string) (sep : ascii) : list string :=
  match s with
  | EmptyString => [""]
  | String c s' =>
      if Ascii.eqb c sep then "" :: Split s' sep
      else match Split s' sep with
           | [] => [String c ""]
           | h :: t => String c h :: t
           end
  end.

(** [strings.Cut(s, sep)] for a separator of one byte: the text before and
    after its first occurrence, [(s, "")] when it does not occur. *)
Fixpoint Cut (s : string) (sep : ascii) : string * string :=
  match s with
  | EmptyString => ("", "")
  | String c s' =>
      if Ascii.eqb c sep then ("", s')
      else let '(before, after) := Cut s' sep in (String c before, after)
  end.

(** [strings.Contains(s, sep)] for a separator of one byte. *)
Fixpoint ContainsByte (s : string) (sep : ascii) : bool :=
  match s with
  | EmptyString => false
  | String c s' => Ascii.eqb c sep || ContainsByte s' sep
  end.

(** [strings.Count(s, sep)] for a separator of one byte. *)
Fixpoint Count (s : string) (sep : ascii) : N :=
  match s with
  | EmptyString => 0%N
  | String c s' => ((if Ascii.eqb c sep then 1 else 0) + Count s' sep)%N
  end.

(** Width in bytes of the white-space rune that starts [s], 0 when [s]
    starts with none.  White space is [unicode.IsSpace]: the Latin-1 runes
    U+0009..U+000D, U+0020, U+0085, U+00A0 and the [White_Space] table
    U+1680, U+2000..U+200A, U+2028, U+2029, U+202F, U+205F, U+3000, each in
    its (unique) UTF-8 encoding. *)
Definition space_width (s : string) : nat :=
  match s with
  | EmptyString => 0
  | String c0 r0 =>
      let n0 := nat_of_ascii c0 in
      if ((9 <=? n0) && (n0 <=? 13)) || (n0 =? 32) then 1
      else match r0 with
      | EmptyString => 0
      | String c1 r1 =>
          let n1 := nat_of_ascii c1 in
          if (n0 =? 194) && ((n1 =? 133) || (n1 =? 160)) then 2
          else match r1 with
          | EmptyString => 0
          | String c2 _ =>
              let n2 := nat_of_ascii c2 in
              if (n0 =? 225) && (n1 =? 154) && (n2 =? 128) then 3
              else if (n0 =? 226) && (n1 =? 128) &&
                      (((128 <=? n2) && (n2 <=? 138)) || (n2 =? 168) ||
                       (n2 =? 169) || (n2 =? 175)) then 3
              else if (n0 =? 226) && (n1 =? 129) && (n2 =? 159) then 3
              else if (n0 =? 227) && (n1 =? 128) && (n2 =? 128) then 3
              else 0
          end
      end
  end.

Fixpoint drop_bytes (n : nat) (s : string) : string :=
  match n, s with
  | S n', String _ s' => drop_bytes n' s'
  | _, _ => s
  end.

(** [strings.TrimLeftFunc(s, unicode.IsSpace)]: the fuel is the length of
    the string, every step removes at least one byte. *)
Fixpoint trim_left_fuel (fuel : nat) (s : string) : string :=
  match fuel with
  | 0 => s
  | S fuel' =>
      match space_width s with
      | 0 => s
      | w => trim_left_fuel fuel' (drop_bytes w s)
      end
  end.

Definition TrimLeftSpace (s : string) : string :=
  trim_left_fuel (String.length s) s.

(** Width in bytes of the white-space rune that ends [s], 0 when none.
    [utf8.DecodeLastRuneInString] walks back to the nearest rune start
    within four bytes, decodes there and accepts the rune only when it ends
    at the end of the string; for the white-space runes this is: a suffix of
    [s] is exactly the encoding of one of them. *)
Fixpoint last_space_width (s : string) : nat :=
  match s with
  | EmptyString => 0
  | String _ s' =>
      match space_width s with
      | 0 => last_space_width s'
      | w => if String.length s =? w then w else last_space_width s'
      end
  end.

Fixpoint take_bytes (n : nat) (s : string) : string :=
  match n, s with
  | S n', String c s' => String c (take_bytes n' s')
  | _, _ => ""
  end.

(** [strings.TrimRightFunc(s, unicode.IsSpace)]. *)
Fixpoint trim_right_fuel (fuel : nat) (s : string) : string :=
  match fuel with
  | 0 => s
  | S fuel' =>
      match last_space_width s with
      | 0 => s
      | w => trim_right_fuel fuel' (take_bytes (String.length s - w) s)
      end
  end.

Definition TrimRightSpace (s : string) : string :=
  trim_right_fuel (String.length s) s.

(** [strings.TrimSpace(s)]: leading and trailing white space removed.  The
    ASCII fast path of the library computes the same result as
    [TrimFunc(s, unicode.IsSpace)], which is left trim then right trim. *)
Definition TrimSpace (s : string) : string :=
  TrimRightSpace (TrimLeftSpace s).

End strings.

(** ** Package [net/http]: headers *)

Module http.

(** [httpguts]: the bytes allowed in a header field name (RFC 7230 token). *)
Definition validHeaderFieldByte (c : ascii) : bool :=
  let n := nat_of_ascii c in
  ((48 <=? n) && (n <=? 57)) || ((65 <=? n) && (n <=? 90)) ||
  ((97 <=? n) && (n <=? 122)) ||
  existsb (Nat.eqb n) [33; 35; 36; 37; 38; 39; 42; 43; 45; 46; 94; 95; 96; 124; 126].

Fixpoint canonical_from (upper : bool) (s : string) : string :=
  match s with
  | EmptyString => ""
  | String c s' =>
      let n := nat_of_ascii c in
      let c' :=
        if upper && (97 <=? n) && (n <=? 122) then ascii_of_nat (n - 32)
        else if negb upper && (65 <=? n) && (n <=? 90) then ascii_of_nat (n + 32)
        else c in
      String c' (canonical_from (Ascii.eqb c' "-") s')
  end.

(** [textproto.CanonicalMIMEHeaderKey]: first letter and letters after a
    hyphen in upper case, the others in lower case; a key with a byte that
    is not allowed in a field name is returned as it is. *)
Definition CanonicalHeaderKey (s : string) : string :=
  if forallb validHeaderFieldByte (list_ascii_of_string s)
  then canonical_from true s else s.

(** [http.Header] is [map[string][]string]. *)
Abbreviation Header := (gmap string (list string)).

(** [h.Get(key)]: the first value of the canonical key, [""] when there is
    none. *)
Definition Get (h : Header) (key : string) : string :=
  match h !! CanonicalHeaderKey key with
  | Some (v :: _) => v
  | _ => ""
  end.

(** [h.Set(key, value)]: replaces the values of the canonical key. *)
Definition Set_ (h : Header) (key value : string) : Header :=
  <[CanonicalHeaderKey key := [value]]> h.

End http.

(** ** Package [net/url]: query strings *)

Module url.

(** [url.Values] is [map[string][]string]. *)
Abbreviation Values := (gmap string (list string)).

Definition ishex (c : ascii) : bool :=
  let n := nat_of_ascii c in
  ((48 <=? n) && (n <=? 57)) || ((97 <=? n) && (n <=? 102)) ||
  ((65 <=? n) && (n <=? 70)).

Definition unhex (c : ascii) : nat :=
  let n := nat_of_ascii c in
  if (48 <=? n) && (n <=? 57) then n - 48
  else if (97 <=? n) && (n <=? 102) then n - 97 + 10
  else if (65 <=? n) && (n <=? 70) then n - 65 + 10
  else 0.

Definition upperhex (n : nat) : ascii :=
  if n <? 10 then ascii_of_nat (48 + n) else ascii_of_nat (65 + (n - 10)).

(** [shouldEscape(c, encodeQueryComponent)]: everything but the unreserved
    characters (letters, digits, [-], [_], [.], [~]) is escaped. *)
Definition shouldEscape (c : ascii) : bool :=
  let n := nat_of_ascii c in
  negb (((97 <=? n) && (n <=? 122)) || ((65 <=? n) && (n <=? 90)) ||
        ((48 <=? n) && (n <=? 57)) ||
        (n =? 45) || (n =? 95) || (n =? 46) || (n =? 126)).

(** [url.QueryEscape(s)]. *)
Fixpoint QueryEscape (s : string) : string :=
  match s with
  | EmptyString => ""
  | String c s' =>
      if shouldEscape c then
        if Ascii.eqb c " " then String "+" (QueryEscape s')
        else String "%" (String (upperhex (nat_of_ascii c / 16))
                          (String (upperhex (nat_of_ascii c mod 16))
                             (QueryEscape s')))
      else String c (QueryEscape s')
  end.

(** [url.QueryUnescape(s)]: [None] stands for the [EscapeError] of a [%]
    that is not followed by two hexadecimal digits. *)
Fixpoint QueryUnescape (s : string) : option string :=
  match s with
  | EmptyString => Some ""
  | String c s' =>
      if Ascii.eqb c "%" then
        match s' with
        | String h1 (String h2 s'') =>
            if ishex h1 && ishex h2 then
              match QueryUnescape s'' with
              | Some t => Some (String (ascii_of_nat (unhex h1 * 16 + unhex h2)) t)
              | None => None
              end
            else None
        | _ => None
        end
      else
        match QueryUnescape s' with
        | Some t => Some (String (if Ascii.eqb c "+" then " "%char else c) t)
        | None => None
        end
  end.

(** One turn of the loop of [parseQuery] on the pair [key] cut off the
    query at [&]: pairs with a semicolon, empty pairs and pairs whose key or
    value does not unescape are skipped ([continue]). *)
Definition parsePair (m : Values) (key : string) : Values :=
  if strings.ContainsByte key ";" then m
  else if String.eqb key "" then m
  else
    let '(key, value) := strings.Cut key "=" in
    match QueryUnescape key with
    | None => m
    | Some key =>
        match QueryUnescape value with
        | None => m
        | Some value => <[key := default [] (m !! key) ++ [value]]> m
        end
    end.

(** [defaultMaxParams]: the number of pairs [parseQuery] accepts when the
    [urlmaxqueryparams] setting is left at its default. *)
Definition maxQueryParams : N := 10000%N.

(** [url.ParseQuery(query)], the map it returns (the error is dropped by
    the only caller, [URL.Query]).  A query of more than [maxQueryParams]
    pairs, counted as one more than its [&], is refused before anything is
    parsed and the map stays empty.  Otherwise the loop cuts the query at
    each [&] until nothing is left; the pairs it visits are those of
    [strings.Split(query, "&")], up to empty ones, which it skips. *)
Definition ParseQuery (query : string) : Values :=
  if (strings.Count query "&" + 1 <=? maxQueryParams)%N then
    foldl parsePair ∅ (strings.Split query "&")
  else ∅.

(** [slices.Sort] on strings: insertion sort for the byte-wise order. *)
Fixpoint insert_sorted (k : string) (l : list string) : list string :=
  match l with
  | [] => [k]
  | x :: l' => if String.leb k x then k :: l else x :: insert_sorted k l'
  end.

Definition Sort (l : list string) : list string :=
  foldr insert_sorted [] l.

(** The body of the inner loop of [Encode]: an [&] unless the buffer is
    empty, then [key=value]. *)
Definition writePair (keyEscaped : string) (buf v : string) : string :=
  (if 0 <? String.length buf then buf +:+ "&" else buf)
    +:+ keyEscaped +:+ "=" +:+ QueryEscape v.

(** [v.Encode()]: the keys sorted, each value of each key written as
    [key=value], both escaped. *)
Definition Encode (v : Values) : string :=
  if size v =? 0 then ""
  else
    let keys := Sort (map_to_list v).*1 in
    foldl (fun buf k =>
             let vs := default [] (v !! k) in
             let keyEscaped := QueryEscape k in
             foldl (writePair keyEscaped) buf vs) "" keys.

(** [v.Set(key, value)]. *)
Definition Set_ (v : Values) (key value : string) : Values :=
  <[key := [value]]> v.

(** [v.Get(key)]: the first value of the key, [""] when there is none. *)
Definition Get (v : Values) (key : string) : string :=
  match v !! key with
  | Some (x :: _) => x
  | _ => ""
  end.

(** The part of [url.URL] the package touches, and a path to frame it. *)
Record URL := mkURL { Path : string; RawQuery : string }.

(** [u.Query()]: parses [RawQuery], silently discarding malformed pairs
    and, for a query over the limit, every pair. *)
Definition Query (u : URL) : Values := ParseQuery (RawQuery u).

End url.

(** ** Requests, middleware and the iteration order of Go maps *)

(** The part of [http.Request] the package touches ([Header], the query of
    [URL]) and two fields it leaves alone. *)
Record Request := mkRequest {
  Method : string;
  URL : url.URL;
  Header : http.Header
}.

(** [option.MiddlewareNext] and [option.Middleware].  The answer type [T]
    is the pair of a response and an error for a pure successor, and a state
    transformer returning it for a successor with effects. *)
Definition MiddlewareNext (T : Type) : Type := Request → T.
Definition Middleware (T : Type) : Type := Request → MiddlewareNext T → T.

(** [for b := range betaSet]: Go leaves the iteration order of a map
    unspecified; every key is produced once.  A [RangeOrder] is one choice
    of that order for every map. *)
Record RangeOrder := mkRangeOrder {
  range_keys : gmap string bool → list string;
  range_keys_perm : ∀ m, range_keys m ≡ₚ (map_to_list m).*1
}.

Definition canonical_order : RangeOrder :=
  {| range_keys := λ m, (map_to_list m).*1;
     range_keys_perm := λ m, reflexivity _ |}.

(** ** Package [oauth] *)

(** [DefaultOAuthBetas]. *)
Definition DefaultOAuthBetas : list string :=
  [ "oauth-2025-04-20";
    "interleaved-thinking-2025-05-14";
    "claude-code-20250219";
    "fine-grained-tool-streaming-2025-05-14" ].

(** [Config]. *)
Record Config := mkConfig {
  AccessToken : string;
  RefreshToken : string;
  Betas : list string;
  UserAgent : string;
  UseBetaEndpoint : bool
}.

(** [Config{AccessToken: accessToken}]: the other fields at their zero
    values. *)
Definition tokenConfig (accessToken : string) : Config :=
  {| AccessToken := accessToken; RefreshToken := ""; Betas := [];
     UserAgent := ""; UseBetaEndpoint := false |}.

(** The map [betaSet] after the two loops of [oauthMiddleware]: the
    trimmed tokens of the existing header, then the configured betas. *)
Definition betaSet (existingBetas : string) (betas : list string)
  : gmap string bool :=
  let betaSet : gmap string bool :=
    foldl (λ m b, <[strings.TrimSpace b := true]> m) ∅
          (strings.Split existingBetas ",") in
  foldl (λ m b, <[b := true]> m) betaSet betas.

(** The slice [allBetas]: the keys of [betaSet] in the order of the range
    loop. *)
Definition allBetas (o : RangeOrder) (existingBetas : string)
  (betas : list string) : list string :=
  range_keys o (betaSet existingBetas betas).

(** The value the middleware gives the [anthropic-beta] header, from the
    value the header had and the configured betas (which are not empty
    where this is called). *)
Definition mergedBetas (o : RangeOrder) (existingBetas : string)
  (betas : list string) : string :=
  if negb (String.eqb existingBetas "") then
    strings.Join (allBetas o existingBetas betas) ","
  else
    strings.Join betas ",".

(** First block of [oauthMiddleware]: the [anthropic-beta] header. *)
Definition setBetas (o : RangeOrder) (cfg : Config) (r : Request) : Request :=
  if 0 <? length (Betas cfg) then
    let existingBetas := http.Get (Header r) "anthropic-beta" in
    {| Method := Method r; URL := URL r;
       Header := http.Set_ (Header r) "anthropic-beta"
                   (mergedBetas o existingBetas (Betas cfg)) |}
  else r.

(** Second block: the [User-Agent] header. *)
Definition setUserAgent (cfg : Config) (r : Request) : Request :=
  if negb (String.eqb (UserAgent cfg) "") then
    {| Method := Method r; URL := URL r;
       Header := http.Set_ (Header r) "User-Agent" (UserAgent cfg) |}
  else r.

(** Third block: the [beta=true] query parameter. *)
Definition setBetaQuery (cfg : Config) (r : Request) : Request :=
  if UseBetaEndpoint cfg then
    let q := url.Query (URL r) in
    let q := url.Set_ q "beta" "true" in
    {| Method := Method r;
       URL := {| url.Path := url.Path (URL r); url.RawQuery := url.Encode q |};
       Header := Header r |}
  else r.

(** The request as [oauthMiddleware] hands it to [next]. *)
Definition mutate (o : RangeOrder) (cfg : Config) (r : Request) : Request :=
  setBetaQuery cfg (setUserAgent cfg (setBetas o cfg r)).

(** [oauthMiddleware(cfg)]. *)
Definition oauthMiddleware {T : Type} (o : RangeOrder) (cfg : Config)
  : Middleware T :=
  λ r next, next (mutate o cfg r).

(** [os.Getenv] on an injected environment: [""] for an unset variable. *)
Definition Getenv (env : gmap string string) (key : string) : string :=
  default "" (env !! key).

(** The access token [WithLoadEnv] resolves. *)
Definition loadEnvToken (env : gmap string string) : string :=
  let accessToken := Getenv env "ANTHROPIC_OAUTH_ACCESS_TOKEN" in
  if String.eqb accessToken "" then Getenv env "ANTHROPIC_ACCESS_TOKEN"
  else accessToken.

(** The first statement of [WithConfig]: the default betas when the
    configuration has none (on the local copy [cfg]). *)
Definition withDefaultBetas (cfg : Config) : Config :=
  if length (Betas cfg) =? 0 then
    {| AccessToken := AccessToken cfg; RefreshToken := RefreshToken cfg;
       Betas := DefaultOAuthBetas; UserAgent := UserAgent cfg;
       UseBetaEndpoint := UseBetaEndpoint cfg |}
  else cfg.

(** ** The request pipeline the package plugs into *)

Section Pipeline.
Context {T : Type}.

(** Modelled from the spec: [requestconfig.RequestConfig], which is not
    part of the sources at hand.  The opaque request pipeline of sections 1
    and 4.3: the in-flight request and the ordered list of configuration
    units that run, each calling its successor, before the terminal send
    step. *)
Record RequestConfig := mkRequestConfig {
  Request_ : Request;
  Middlewares : list (Middleware T)
}.

(** Modelled from the spec: [option.RequestOption] and
    [requestconfig.RequestOptionFunc], which are not part of the sources at
    hand.  A configuration unit updates the request configuration or fails
    with an error. *)
Definition RequestOption : Type := RequestConfig → string + RequestConfig.

Definition RequestOptionFunc (f : RequestConfig → string + RequestConfig)
  : RequestOption := f.

(** Modelled from the spec: [rc.Apply(opts...)], which is not part of the
    sources at hand.  The units are applied in the order given; the first
    error stops the application. *)
Fixpoint Apply (rc : RequestConfig) (opts : list RequestOption)
  : string + RequestConfig :=
  match opts with
  | [] => inr rc
  | opt :: opts' =>
      match opt rc with
      | inl err => inl err
      | inr rc' => Apply rc' opts'
      end
  end.

(** Modelled from the spec: [option.WithAuthToken], which is not part of
    the sources at hand.  Section 4.4: the additional configuration unit
    that establishes the Authorization header itself; section 6: the header
    is [Bearer <token>]. *)
Definition WithAuthToken (value : string) : RequestOption :=
  RequestOptionFunc (λ rc,
    inr {| Request_ :=
             {| Method := Method (Request_ rc); URL := URL (Request_ rc);
                Header := http.Set_ (Header (Request_ rc)) "Authorization"
                            ("Bearer " +:+ value) |};
           Middlewares := Middlewares rc |}).

(** Modelled from the spec: [option.WithMiddleware], which is not part of
    the sources at hand.  The unit joins the chain after the units already
    there. *)
Definition WithMiddleware (m : Middleware T) : RequestOption :=
  RequestOptionFunc (λ rc,
    inr {| Request_ := Request_ rc; Middlewares := Middlewares rc ++ [m] |}).

(** Modelled from the spec: the execution of the pipeline, which is not
    part of the sources at hand.  Section 4.3: chain of responsibility, every
    unit hands the request to its successor and the terminal unit sends
    it. *)
Fixpoint runChain (ms : list (Middleware T)) (send : MiddlewareNext T)
  : MiddlewareNext T :=
  match ms with
  | [] => send
  | m :: ms' => λ r, m r (runChain ms' send)
  end.

Definition Execute (rc : RequestConfig) (send : MiddlewareNext T) : T :=
  runChain (Middlewares rc) send (Request_ rc).

Variable o : RangeOrder.

(** [WithConfig(cfg)]. *)
Definition WithConfig (cfg : Config) : RequestOption :=
  let cfg := withDefaultBetas cfg in
  RequestOptionFunc (λ rc,
    Apply rc [ WithAuthToken (AccessToken cfg);
               WithMiddleware (oauthMiddleware o cfg) ]).

(** [WithAccessToken(accessToken)]. *)
Definition WithAccessToken (accessToken : string) : RequestOption :=
  WithConfig (tokenConfig accessToken).

(** [WithLoadEnv()], in the environment [env]. *)
Definition WithLoadEnv (env : gmap string string) : RequestOption :=
  let accessToken := loadEnvToken env in
  WithConfig (tokenConfig accessToken).

End Pipeline.

Arguments RequestConfig : clear implicits.
Arguments RequestOption : clear implicits.

(** A request with no header and no query, and the configuration of a
    client with no unit yet. *)
Definition emptyRequest : Request :=
  {| Method := "POST"; URL := {| url.Path := "/v1/messages"; url.RawQuery := "" |};
     Header := ∅ |}.

Definition emptyConfig (T : Type) (r : Request) : RequestConfig T :=
  {| Request_ := r; Middlewares := [] |}.

(** What the server sees when the client is built from the units [opts]:
    the request that reaches the terminal send step. *)
Definition sentRequest (opts : list (RequestOption (option Request)))
  (r : Request) : option Request :=
  match Apply (emptyConfig (option Request) r) opts with
  | inl _ => None
  | inr rc => Execute rc Some
  end.

(** ** Vocabulary of the statements *)

(** The tokens the merge reads in a header value: the pieces between
    commas, trimmed (first loop of [oauthMiddleware]). *)
Definition existingTokens (existingBetas : string) : list string :=
  map strings.TrimSpace (strings.Split existingBetas ",").

(** The set of tokens of a header value, read the way the merge reads
    it. *)
Definition tokenSet (headerValue : string) : gset string :=
  list_to_set (existingTokens headerValue).

(** The pieces between commas of a header value, as they are. *)
Definition headerTokens (headerValue : string) : list string :=
  strings.Split headerValue ",".

(** Every token of either input occurs exactly once among the pieces of
    the merged header value. *)
Definition merged_exactly_once (o : RangeOrder) (existingBetas : string)
  (betas : list string) : Prop :=
  ∀ t, In t (existingTokens existingBetas) ∨ In t betas →
       count_occ string_dec (headerTokens (mergedBetas o existingBetas betas)) t = 1.

(** A flag with no comma in it. *)
Definition comma_free (b : string) : Prop := strings.ContainsByte b "," = false.

(** The credential resolver in the words of its contract: the value of
    the first variable, in priority order, that is set to a non-empty
    string; the empty string when there is none. *)
Fixpoint firstNonEmpty (env : gmap string string) (names : list string) : string :=
  match names with
  | [] => ""
  | name :: names' =>
      match env !! name with
      | Some (String c v) => String c v
      | _ => firstNonEmpty env names'
      end
  end.

(** A successor with effects on a world [W], instrumented with the list of
    the requests it has been invoked with. *)
Definition logged {Res W : Type} (next : Request → W → Res * W)
  : MiddlewareNext (W * list Request → Res * (W * list Request)) :=
  λ r st,
    let '(res, w') := next r st.1 in
    (res, (w', st.2 ++ [r])).

(** The value of the [Authorization] header of the request that reaches
    the terminal send step. *)
Definition sentAuthorization (opts : list (RequestOption (option Request)))
  (r : Request) : option string :=
  (λ r', http.Get (Header r') "Authorization") <$> sentRequest opts r.

(** The unit built from a configuration has no effect on the
    [Authorization] header that the units [before] it determine. *)
Definition authorization_untouched (o : RangeOrder) (cfg : Config)
  (before : list (RequestOption (option Request))) (r : Request) : Prop :=
  sentAuthorization (before ++ [WithConfig o cfg]) r = sentAuthorization before r.

(** A query pair as [Encode] writes it. *)
Definition pairString (kx : string * string) : string :=
  url.QueryEscape kx.1 +:+ "=" +:+ url.QueryEscape kx.2.

(** [m[key] = append(m[key], value)], the last statement of the loop of
    [parseQuery]. *)
Definition addValue (m : url.Values) (kx : string * string) : url.Values :=
  <[kx.1 := default [] (m !! kx.1) ++ [kx.2]]> m.

(** What [Encode] appends to its buffer for one pair. *)
Definition appendPair (buf p : string) : string :=
  (if 0 <? String.length buf then buf +:+ "&" else buf) +:+ p.

(** The pairs of the values [v], key by key. *)
Definition valuePairs (v : url.Values) (keys : list string)
  : list (string * string) :=
  flat_map (λ k, map (pair k) (default [] (v !! k))) keys.

(** Values as [ParseQuery] and [Set] build them: no key with an empty
    list of values. *)
Definition wfValues (v : url.Values) : Prop :=
  ∀ k l, v !! k = Some l → l ≠ [].

(** The tokens the merge would read in the configured flags, were they
    header values: each flag split at commas and trimmed. *)
Definition flagTokens (betas : list string) : gset string :=
  ⋃ (tokenSet <$> betas).

(** The number of values a query holds, over all its keys. *)
Definition totalValues (v : url.Values) : nat :=
  sum_list_with (λ kl : string * list string, length kl.2) (map_to_list v).





(** A request with the raw query [query] and a configuration that asks
    for the beta endpoint and nothing else. *)
Definition queryRequest (query : string) : Request :=
  {| Method := "POST";
     URL := {| url.Path := "/v1/messages"; url.RawQuery := query |};
     Header := ∅ |}.

Definition betaEndpointConfig : Config :=
  {| AccessToken := "t"; RefreshToken := ""; Betas := [];
     UserAgent := ""; UseBetaEndpoint := true |}.

(** * Properties *)

(** ** The model on concrete inputs *)

Example Split_ex1 : strings.Split "a, b,,c" "," = ["a"; " b"; ""; "c"].
Proof. reflexivity. Qed.
Example Split_ex2 : strings.Split "" "," = [""].
Proof. reflexivity. Qed.
Example Join_ex1 : strings.Join ["a"; "b"; "c"] "," = "a,b,c".
Proof. reflexivity. Qed.
Example Trim_ex1 : strings.TrimSpace "  a b	 " = "a b".
Proof. reflexivity. Qed.
Example Trim_ex2 : strings.TrimSpace "   " = "".
Proof. reflexivity. Qed.
Example canonical_beta : http.CanonicalHeaderKey "anthropic-beta" = "Anthropic-Beta".
Proof. reflexivity. Qed.
Example canonical_ua : http.CanonicalHeaderKey "User-Agent" = "User-Agent".
Proof. reflexivity. Qed.
Example escape_ex : url.QueryEscape "a b&c=d/é" = "a+b%26c%3Dd%2F%C3%A9".
Proof. reflexivity. Qed.
Example unescape_ex : url.QueryUnescape "a+b%26c%3Dd%2f" = Some "a b&c=d/".
Proof. reflexivity. Qed.
Example unescape_bad : url.QueryUnescape "a%2" = None.
Proof. reflexivity. Qed.
Example parse_ex :
  url.ParseQuery "foo=bar&x=1&foo=baz&&bad;=1&%zz=3&k"
  = <["k" := [""]]> (<["x" := ["1"]]> (<["foo" := ["bar"; "baz"]]> ∅)).
Proof. vm_compute. reflexivity. Qed.
Example encode_ex :
  url.Encode (<["x" := ["1"]]> (<["foo" := ["bar"; "b z"]]> ∅)) = "foo=bar&foo=b+z&x=1".
Proof. vm_compute. reflexivity. Qed.
Example sent_token :
  (λ r, (http.Get (Header r) "Authorization", http.Get (Header r) "anthropic-beta"))
    <$> sentRequest [WithAccessToken canonical_order "test-token"] emptyRequest
  = Some ("Bearer test-token",
          "oauth-2025-04-20,interleaved-thinking-2025-05-14,claude-code-20250219,fine-grained-tool-streaming-2025-05-14").
Proof. vm_compute. reflexivity. Qed.
Example sent_beta_query :
  (λ r, url.RawQuery (URL r))
    <$> sentRequest
          [WithConfig canonical_order
             {| AccessToken := "t"; RefreshToken := ""; Betas := [];
                UserAgent := ""; UseBetaEndpoint := true |}]
          {| Method := "POST";
             URL := {| url.Path := "/v1/messages"; url.RawQuery := "foo=bar" |};
             Header := ∅ |}
  = Some "beta=true&foo=bar".
Proof. vm_compute. reflexivity. Qed.
Example merged_ex :
  tokenSet (mergedBetas canonical_order "a,b" ["b"; "c"]) = {["a"; "b"; "c"]}
  ∧ length (headerTokens (mergedBetas canonical_order "a,b" ["b"; "c"])) = 3.
Proof. split; vm_compute; reflexivity. Qed.

(** ** Facts about [strings] *)

Section StringFacts.

Lemma Split_not_nil s sep : strings.Split s sep ≠ [].
Proof.
  destruct s as [|c s]; simpl; [discriminate|].
  destruct (Ascii.eqb c sep); [discriminate|].
  destruct (strings.Split s sep); discriminate.
Qed.

Lemma Split_cons s sep : ∃ h t, strings.Split s sep = h :: t.
Proof.
  destruct (strings.Split s sep) as [|h t] eqn:E; [|eauto].
  by destruct (Split_not_nil s sep).
Qed.

(** Splitting [a ++ sep ++ b] splits [a] and [b]. *)
Lemma Split_app_sep a b sep :
  strings.Split (a +:+ String sep b) sep
  = strings.Split a sep ++ strings.Split b sep.
Proof.
  induction a as [|c a IH]; simpl.
  - by rewrite Ascii.eqb_refl.
  - destruct (Ascii.eqb c sep); [by rewrite IH|].
    rewrite IH. destruct (Split_cons a sep) as (h & t & ->). reflexivity.
Qed.

Lemma Split_no_sep s sep :
  strings.ContainsByte s sep = false → strings.Split s sep = [s].
Proof.
  induction s as [|c s IH]; simpl; [done|].
  destruct (Ascii.eqb c sep); [done|]. intros H. by rewrite IH.
Qed.

Lemma Split_Forall_no_sep s sep :
  Forall (λ t, strings.ContainsByte t sep = false) (strings.Split s sep).
Proof.
  induction s as [|c s IH]; simpl.
  - by constructor.
  - destruct (Ascii.eqb c sep) eqn:E; [by constructor|].
    destruct (strings.Split s sep) as [|h t]; [constructor; [simpl; by rewrite E|done]|].
    inversion IH; subst. constructor; [|done]. simpl. by rewrite E.
Qed.

Lemma Join_cons2 e e' l sep :
  strings.Join (e :: e' :: l) sep = e +:+ sep +:+ strings.Join (e' :: l) sep.
Proof. reflexivity. Qed.

(** Splitting a joined list splits each of its elements. *)
Lemma Split_Join l sep :
  l ≠ [] →
  strings.Split (strings.Join l (String sep "")) sep
  = concat (map (λ e, strings.Split e sep) l).
Proof.
  induction l as [|e l IH]; [done|]. intros _.
  destruct l as [|e' l].
  - simpl. by rewrite app_nil_r.
  - rewrite Join_cons2. change (String sep "" +:+ ?x) with (String sep x).
    rewrite Split_app_sep, IH by done. reflexivity.
Qed.

(** Joined elements without the separator are recovered by splitting. *)
Lemma Split_Join_no_sep l sep :
  l ≠ [] →
  Forall (λ t, strings.ContainsByte t sep = false) l →
  strings.Split (strings.Join l (String sep "")) sep = l.
Proof.
  intros Hl Hall. rewrite Split_Join by done. clear Hl.
  induction Hall as [|e l He _ IH]; [done|].
  simpl. by rewrite (Split_no_sep _ _ He), IH.
Qed.

Lemma drop_bytes_no_sep n s sep :
  strings.ContainsByte s sep = false →
  strings.ContainsByte (strings.drop_bytes n s) sep = false.
Proof.
  revert s. induction n as [|n IH]; intros [|c s]; simpl; try done.
  intros [_ H]%orb_false_iff. by apply IH.
Qed.

Lemma take_bytes_no_sep n s sep :
  strings.ContainsByte s sep = false →
  strings.ContainsByte (strings.take_bytes n s) sep = false.
Proof.
  revert s. induction n as [|n IH]; intros [|c s]; simpl; try done.
  intros [-> H]%orb_false_iff. by apply IH.
Qed.

Lemma trim_left_fuel_no_sep fuel s sep :
  strings.ContainsByte s sep = false →
  strings.ContainsByte (strings.trim_left_fuel fuel s) sep = false.
Proof.
  revert s. induction fuel as [|fuel IH]; intros s H;
    cbn [strings.trim_left_fuel]; [done|].
  destruct (strings.space_width s); [done|]. by apply IH, drop_bytes_no_sep.
Qed.

Lemma trim_right_fuel_no_sep fuel s sep :
  strings.ContainsByte s sep = false →
  strings.ContainsByte (strings.trim_right_fuel fuel s) sep = false.
Proof.
  revert s. induction fuel as [|fuel IH]; intros s H;
    cbn [strings.trim_right_fuel]; [done|].
  destruct (strings.last_space_width s); [done|]. by apply IH, take_bytes_no_sep.
Qed.

Lemma TrimSpace_no_sep s sep :
  strings.ContainsByte s sep = false →
  strings.ContainsByte (strings.TrimSpace s) sep = false.
Proof.
  intros H. unfold strings.TrimSpace, strings.TrimRightSpace, strings.TrimLeftSpace.
  by apply trim_right_fuel_no_sep, trim_left_fuel_no_sep.
Qed.

End StringFacts.

(** ** [strings.TrimSpace] is idempotent *)

Section TrimFacts.

Lemma take_bytes_length n s :
  String.length (strings.take_bytes n s) = Nat.min n (String.length s).
Proof.
  revert s. induction n as [|n IH]; intros [|c s]; simpl; try done.
  by rewrite IH.
Qed.

Lemma drop_bytes_length n s :
  String.length (strings.drop_bytes n s) = String.length s - n.
Proof.
  revert s. induction n as [|n IH]; intros [|c s]; simpl; try done.
Qed.

Lemma space_width_nonempty s : strings.space_width s ≠ 0 → s ≠ "".
Proof. by destruct s. Qed.

Lemma last_space_width_nonempty s : strings.last_space_width s ≠ 0 → s ≠ "".
Proof. by destruct s. Qed.

(** A prefix starts with white space only if the string does. *)
Lemma space_width_take n s :
  strings.space_width s = 0 → strings.space_width (strings.take_bytes n s) = 0.
Proof.
  destruct s as [|c0 [|c1 [|c2 r]]]; destruct n as [|[|[|n]]];
    cbn [strings.take_bytes]; unfold strings.space_width; try done;
    intros H; repeat (case_match; try done).
Qed.

Lemma trim_left_fuel_fix fuel s :
  strings.space_width s = 0 → strings.trim_left_fuel fuel s = s.
Proof. intros H. destruct fuel; cbn [strings.trim_left_fuel]; by rewrite ?H. Qed.

Lemma trim_right_fuel_fix fuel s :
  strings.last_space_width s = 0 → strings.trim_right_fuel fuel s = s.
Proof. intros H. destruct fuel; cbn [strings.trim_right_fuel]; by rewrite ?H. Qed.

Lemma trim_left_fuel_done fuel s :
  String.length s ≤ fuel →
  strings.space_width (strings.trim_left_fuel fuel s) = 0.
Proof.
  revert s. induction fuel as [|fuel IH]; intros s Hlen;
    cbn [strings.trim_left_fuel].
  - by destruct s; [|simpl in Hlen; lia].
  - destruct (strings.space_width s) as [|w] eqn:E; [done|].
    apply IH. rewrite drop_bytes_length.
    assert (s ≠ "") by (apply space_width_nonempty; lia).
    destruct s; [done|]. simpl in *. lia.
Qed.

Lemma trim_right_fuel_done fuel s :
  String.length s ≤ fuel →
  strings.last_space_width (strings.trim_right_fuel fuel s) = 0.
Proof.
  revert s. induction fuel as [|fuel IH]; intros s Hlen;
    cbn [strings.trim_right_fuel].
  - by destruct s; [|simpl in Hlen; lia].
  - destruct (strings.last_space_width s) as [|w] eqn:E; [done|].
    apply IH. rewrite take_bytes_length.
    assert (s ≠ "") by (apply last_space_width_nonempty; lia).
    destruct s; [done|]. simpl in *. lia.
Qed.

Lemma trim_right_fuel_space_width fuel s :
  strings.space_width s = 0 →
  strings.space_width (strings.trim_right_fuel fuel s) = 0.
Proof.
  revert s. induction fuel as [|fuel IH]; intros s H;
    cbn [strings.trim_right_fuel]; [done|].
  destruct (strings.last_space_width s); [done|].
  by apply IH, space_width_take.
Qed.

(** A trimmed string neither starts nor ends with white space. *)
Lemma TrimSpace_trimmed s :
  strings.space_width (strings.TrimSpace s) = 0
  ∧ strings.last_space_width (strings.TrimSpace s) = 0.
Proof.
  unfold strings.TrimSpace, strings.TrimRightSpace. split.
  - apply trim_right_fuel_space_width.
    unfold strings.TrimLeftSpace. by apply trim_left_fuel_done.
  - by apply trim_right_fuel_done.
Qed.

Lemma TrimSpace_fix s :
  strings.space_width s = 0 → strings.last_space_width s = 0 →
  strings.TrimSpace s = s.
Proof.
  intros Hl Hr. unfold strings.TrimSpace, strings.TrimLeftSpace.
  rewrite (trim_left_fuel_fix _ _ Hl).
  unfold strings.TrimRightSpace. by apply trim_right_fuel_fix.
Qed.

Lemma TrimSpace_idemp s :
  strings.TrimSpace (strings.TrimSpace s) = strings.TrimSpace s.
Proof. destruct (TrimSpace_trimmed s). by apply TrimSpace_fix. Qed.

End TrimFacts.

(** ** The merge of the [anthropic-beta] header *)

Section MergeFacts.

Lemma dom_foldl_insert {A} (f : A → string) (l : list A) (m : gmap string bool) :
  dom (foldl (λ m b, <[f b := true]> m) m l) = dom m ∪ list_to_set (f <$> l).
Proof.
  revert m. induction l as [|a l IH]; intros m; simpl.
  - set_solver.
  - rewrite IH, dom_insert_L. set_solver.
Qed.

Lemma dom_betaSet e betas :
  dom (betaSet e betas) = tokenSet e ∪ list_to_set betas.
Proof.
  unfold betaSet, tokenSet, existingTokens.
  rewrite (dom_foldl_insert id), dom_foldl_insert, dom_empty_L, list_fmap_id.
  set_solver.
Qed.

Lemma foldl_insert_true {A} (f : A → string) (l : list A) (m : gmap string bool) :
  (∀ k x, m !! k = Some x → x = true) →
  ∀ k x, foldl (λ m b, <[f b := true]> m) m l !! k = Some x → x = true.
Proof.
  revert m. induction l as [|a l IH]; intros m Hm k x; simpl; [apply Hm|].
  apply IH. intros k' x'. rewrite lookup_insert.
  case_decide; [congruence|apply Hm].
Qed.

Lemma betaSet_true e betas k x : betaSet e betas !! k = Some x → x = true.
Proof.
  unfold betaSet. apply (foldl_insert_true id).
  apply foldl_insert_true. intros k' x'. by rewrite lookup_empty.
Qed.

Lemma elem_of_map_keys (m : gmap string bool) t :
  t ∈ (map_to_list m).*1 ↔ t ∈ dom m.
Proof.
  rewrite elem_of_dom, list_elem_of_fmap. split.
  - intros ([k v] & -> & H%elem_of_map_to_list). by exists v.
  - intros [v H]. exists (t, v). split; [done|]. by apply elem_of_map_to_list.
Qed.

Lemma allBetas_NoDup o e betas : NoDup (allBetas o e betas).
Proof.
  unfold allBetas. rewrite range_keys_perm. apply NoDup_fst_map_to_list.
Qed.

Lemma elem_of_allBetas o e betas t :
  t ∈ allBetas o e betas ↔ t ∈ existingTokens e ∨ t ∈ betas.
Proof.
  unfold allBetas. rewrite range_keys_perm.
  rewrite elem_of_map_keys, dom_betaSet. unfold tokenSet. set_solver.
Qed.

Lemma existingTokens_not_nil e : existingTokens e ≠ [].
Proof.
  unfold existingTokens. destruct (Split_cons e ",") as (h & t & ->). done.
Qed.

Lemma allBetas_not_nil o e betas : allBetas o e betas ≠ [].
Proof.
  destruct (existingTokens e) as [|t l] eqn:E; [by destruct (existingTokens_not_nil e)|].
  assert (t ∈ allBetas o e betas) as H
    by (apply elem_of_allBetas; left; rewrite E; left).
  intros Hnil. rewrite Hnil in H. by apply not_elem_of_nil in H.
Qed.

Lemma existingTokens_comma_free e : Forall comma_free (existingTokens e).
Proof.
  unfold existingTokens. apply Forall_fmap.
  eapply Forall_impl; [apply Split_Forall_no_sep|].
  intros t Ht. by apply TrimSpace_no_sep.
Qed.

Lemma existingTokens_trimmed e t :
  t ∈ existingTokens e → strings.TrimSpace t = t.
Proof.
  unfold existingTokens. intros (x & -> & _)%list_elem_of_fmap.
  apply TrimSpace_idemp.
Qed.

Lemma mergedBetas_nonempty o e betas :
  e ≠ "" → mergedBetas o e betas = strings.Join (allBetas o e betas) ",".
Proof.
  intros He. unfold mergedBetas.
  destruct (String.eqb_spec e ""); [done|reflexivity].
Qed.

Lemma mergedBetas_empty o betas :
  mergedBetas o "" betas = strings.Join betas ",".
Proof. reflexivity. Qed.

(** With flags free of commas, the pieces of the merged header value are
    the keys of the set. *)
Lemma headerTokens_merged o e betas :
  e ≠ "" → Forall comma_free betas →
  headerTokens (mergedBetas o e betas) = allBetas o e betas.
Proof.
  intros He Hfree. unfold headerTokens. rewrite mergedBetas_nonempty by done.
  apply Split_Join_no_sep; [apply allBetas_not_nil|].
  apply Forall_forall. intros t [Ht|Ht]%elem_of_allBetas.
  - by eapply (proj1 (Forall_forall _ _) (existingTokens_comma_free e)).
  - by eapply (proj1 (Forall_forall _ _) Hfree).
Qed.

End MergeFacts.

(** ** Headers of the mutated request *)

Section HeaderFacts.

Lemma Get_Set_eq h key value : http.Get (http.Set_ h key value) key = value.
Proof. unfold http.Get, http.Set_. by rewrite lookup_insert_eq. Qed.

Lemma lookup_Set_ne h key value k :
  http.CanonicalHeaderKey key ≠ k → http.Set_ h key value !! k = h !! k.
Proof. intros H. unfold http.Set_. by rewrite lookup_insert_ne. Qed.

Lemma Header_setBetaQuery cfg r : Header (setBetaQuery cfg r) = Header r.
Proof. unfold setBetaQuery. by destruct (UseBetaEndpoint cfg). Qed.

Lemma URL_setBetas o cfg r : URL (setBetas o cfg r) = URL r.
Proof. unfold setBetas. by destruct (0 <? length (Betas cfg)). Qed.

Lemma URL_setUserAgent cfg r : URL (setUserAgent cfg r) = URL r.
Proof. unfold setUserAgent. by destruct (negb (String.eqb (UserAgent cfg) "")). Qed.

Lemma lookup_setUserAgent cfg r k :
  k ≠ "User-Agent" → Header (setUserAgent cfg r) !! k = Header r !! k.
Proof.
  intros Hk. unfold setUserAgent.
  destruct (negb (String.eqb (UserAgent cfg) "")); [|done].
  simpl. by apply lookup_Set_ne.
Qed.

Lemma lookup_setBetas o cfg r k :
  k ≠ "Anthropic-Beta" → Header (setBetas o cfg r) !! k = Header r !! k.
Proof.
  intros Hk. unfold setBetas.
  destruct (0 <? length (Betas cfg)); [|done].
  simpl. by apply lookup_Set_ne.
Qed.

(** The [anthropic-beta] header the successor sees. *)
Lemma mutate_beta_header o cfg r :
  Betas cfg ≠ [] →
  http.Get (Header (mutate o cfg r)) "anthropic-beta"
  = mergedBetas o (http.Get (Header r) "anthropic-beta") (Betas cfg).
Proof.
  intros Hb. unfold mutate. rewrite Header_setBetaQuery.
  unfold http.Get at 1. rewrite lookup_setUserAgent by done.
  unfold setBetas. destruct (Betas cfg) as [|b bs] eqn:E; [done|].
  simpl length. cbn [Nat.ltb Nat.leb Header].
  apply Get_Set_eq.
Qed.

End HeaderFacts.

(** ** Claims on the merge *)

(** C1, as stated: with no existing header value the flags are joined as
    they are, so a repeated flag occurs twice; and a flag that contains a
    comma contributes pieces of its own, so a piece can occur twice. *)
Lemma merged_exactly_once_fails :
  ¬ merged_exactly_once canonical_order "" ["a"; "a"]
  ∧ ¬ merged_exactly_once canonical_order "a" ["a,b"].
Proof.
  split; intros H.
  - specialize (H "a" (or_intror (or_introl eq_refl))).
    vm_compute in H. discriminate.
  - specialize (H "a" (or_introl (or_introl eq_refl))).
    vm_compute in H. discriminate.
Qed.

(** C1, amended: for a non-empty existing header value and flags free of
    commas, whatever the iteration order of the set, every token of either
    input (existing tokens trimmed, flags as they are) occurs exactly once
    among the comma-separated pieces of the merged header value, no piece
    occurs twice and every piece comes from one of the inputs. *)
Theorem merged_exactly_once_nonempty (o : RangeOrder) (existingBetas : string)
    (betas : list string) :
  existingBetas ≠ "" →
  Forall comma_free betas →
  merged_exactly_once o existingBetas betas
  ∧ List.NoDup (headerTokens (mergedBetas o existingBetas betas))
  ∧ (∀ t, In t (headerTokens (mergedBetas o existingBetas betas)) →
          In t (existingTokens existingBetas) ∨ In t betas).
Proof.
  intros He Hfree. rewrite headerTokens_merged by done.
  assert (List.NoDup (allBetas o existingBetas betas)) as Hnd
    by apply NoDup_ListNoDup, allBetas_NoDup.
  split; [|split; [done|]].
  - intros t Ht. unfold merged_exactly_once.
    rewrite headerTokens_merged by done.
    apply (proj1 (NoDup_count_occ' string_dec _) Hnd).
    apply list_elem_of_In, elem_of_allBetas.
    rewrite !list_elem_of_In. exact Ht.
  - intros t Ht%list_elem_of_In%elem_of_allBetas.
    by rewrite !list_elem_of_In in Ht.
Qed.

Lemma merged_exactly_once_nonempty_witness :
  "a, b ,a" ≠ "" ∧ Forall comma_free ["b"; "c"; "c"]
  ∧ (merged_exactly_once canonical_order "a, b ,a" ["b"; "c"; "c"]
     ∧ List.NoDup (headerTokens (mergedBetas canonical_order "a, b ,a" ["b"; "c"; "c"]))
     ∧ (∀ t, In t (headerTokens (mergedBetas canonical_order "a, b ,a" ["b"; "c"; "c"])) →
             In t (existingTokens "a, b ,a") ∨ In t ["b"; "c"; "c"])).
Proof.
  assert ("a, b ,a" ≠ "") as He by discriminate.
  assert (Forall comma_free ["b"; "c"; "c"]) as Hf
    by (repeat constructor).
  split; [exact He|split; [exact Hf|]].
  exact (merged_exactly_once_nonempty canonical_order "a, b ,a" ["b"; "c"; "c"] He Hf).
Defined.

(** C5: when the request has no [anthropic-beta] value (absent or empty)
    and the configuration has flags, the header the successor sees is the
    flags joined by commas in their order, repetitions included. *)
Theorem beta_header_joined_when_absent (o : RangeOrder) (cfg : Config)
    (r : Request) :
  Betas cfg ≠ [] →
  http.Get (Header r) "anthropic-beta" = "" →
  http.Get (Header (mutate o cfg r)) "anthropic-beta"
  = strings.Join (Betas cfg) ",".
Proof.
  intros Hb He. rewrite mutate_beta_header by done. by rewrite He.
Qed.

Lemma beta_header_joined_when_absent_witness :
  Betas {| AccessToken := "t"; RefreshToken := ""; Betas := ["a"; "b"; "a"];
           UserAgent := ""; UseBetaEndpoint := false |} ≠ []
  ∧ http.Get (Header emptyRequest) "anthropic-beta" = ""
  ∧ http.Get (Header (mutate canonical_order
        {| AccessToken := "t"; RefreshToken := ""; Betas := ["a"; "b"; "a"];
           UserAgent := ""; UseBetaEndpoint := false |} emptyRequest))
      "anthropic-beta" = "a,b,a".
Proof.
  split; [discriminate|]. split; [reflexivity|].
  apply (beta_header_joined_when_absent canonical_order
    {| AccessToken := "t"; RefreshToken := ""; Betas := ["a"; "b"; "a"];
       UserAgent := ""; UseBetaEndpoint := false |} emptyRequest);
    [discriminate|reflexivity].
Defined.

(** C7: nothing is filtered.  Every piece of a non-empty existing header
    value is a key of the set once trimmed; a piece that is empty or only
    white space is keyed as the empty string, which the merged list then
    contains exactly once; and the keys are the trimmed pieces and the
    flags, no more and no less. *)
Theorem empty_tokens_kept (o : RangeOrder) (existingBetas : string)
    (betas : list string) (piece : string) :
  existingBetas ≠ "" →
  In piece (strings.Split existingBetas ",") →
  strings.TrimSpace piece = "" →
  betaSet existingBetas betas !! "" = Some true
  ∧ count_occ string_dec (allBetas o existingBetas betas) "" = 1
  ∧ mergedBetas o existingBetas betas
    = strings.Join (allBetas o existingBetas betas) ","
  ∧ (∀ p, In p (strings.Split existingBetas ",") →
          In (strings.TrimSpace p) (allBetas o existingBetas betas))
  ∧ (∀ t, In t (allBetas o existingBetas betas) ↔
          In t (map strings.TrimSpace (strings.Split existingBetas ","))
          ∨ In t betas).
Proof.
  intros He Hin Htrim.
  assert (∀ p, In p (strings.Split existingBetas ",") →
               In (strings.TrimSpace p) (allBetas o existingBetas betas)) as Hkeep.
  { intros p Hp. apply list_elem_of_In, elem_of_allBetas. left.
    unfold existingTokens. apply list_elem_of_fmap. exists p.
    by rewrite list_elem_of_In. }
  assert (In "" (allBetas o existingBetas betas)) as Hempty
    by (rewrite <- Htrim; by apply Hkeep).
  split; [|split; [|split; [|split]]].
  - assert ("" ∈ dom (betaSet existingBetas betas)) as [v Hv]%elem_of_dom.
    { apply elem_of_map_keys. rewrite <- (range_keys_perm o).
      by apply list_elem_of_In. }
    rewrite Hv. f_equal. by eapply betaSet_true.
  - apply (proj1 (NoDup_count_occ' string_dec _));
      [apply NoDup_ListNoDup, allBetas_NoDup|done].
  - by apply mergedBetas_nonempty.
  - exact Hkeep.
  - intros t. split.
    + intros Ht%list_elem_of_In%elem_of_allBetas.
      by rewrite !list_elem_of_In in Ht.
    + intros Ht. apply list_elem_of_In, elem_of_allBetas.
      by rewrite !list_elem_of_In.
Qed.

Lemma empty_tokens_kept_witness :
  "a, ,b,," ≠ "" ∧ In " " (strings.Split "a, ,b,," ",")
  ∧ strings.TrimSpace " " = ""
  ∧ count_occ string_dec (allBetas canonical_order "a, ,b,," ["c"]) "" = 1.
Proof.
  assert ("a, ,b,," ≠ "") as He by discriminate.
  assert (In " " (strings.Split "a, ,b,," ",")) as Hin by (right; left; reflexivity).
  assert (strings.TrimSpace " " = "") as Ht by reflexivity.
  split; [exact He|split; [exact Hin|split; [exact Ht|]]].
  exact (proj1 (proj2 (empty_tokens_kept canonical_order "a, ,b,," ["c"] " " He Hin Ht))).
Defined.

(** C10: the keys of the set are the existing pieces trimmed and the flags
    as they are.  So when a flag differs from its trimmed form and that
    trimmed form is a token of the non-empty existing header, the merged
    header value carries both, two distinct pieces that are equal once
    trimmed. *)
Theorem trimmed_and_verbatim_both_kept (o : RangeOrder)
    (existingBetas : string) (betas : list string) (b : string) :
  existingBetas ≠ "" →
  Forall comma_free betas →
  In b betas →
  strings.TrimSpace b ≠ b →
  In (strings.TrimSpace b) (existingTokens existingBetas) →
  (∀ t, In t (allBetas o existingBetas betas) ↔
        In t (map strings.TrimSpace (strings.Split existingBetas ","))
        ∨ In t betas)
  ∧ In b (headerTokens (mergedBetas o existingBetas betas))
  ∧ In (strings.TrimSpace b) (headerTokens (mergedBetas o existingBetas betas))
  ∧ b ≠ strings.TrimSpace b
  ∧ strings.TrimSpace b = strings.TrimSpace (strings.TrimSpace b).
Proof.
  intros He Hfree Hb Hne Hex.
  rewrite headerTokens_merged by done.
  split; [|split; [|split; [|split]]].
  - intros t. rewrite <- !list_elem_of_In. apply elem_of_allBetas.
  - apply list_elem_of_In, elem_of_allBetas. right. by apply list_elem_of_In.
  - apply list_elem_of_In, elem_of_allBetas. left. by apply list_elem_of_In.
  - congruence.
  - by rewrite TrimSpace_idemp.
Qed.

Lemma trimmed_and_verbatim_both_kept_witness :
  "oauth-2025-04-20" ≠ "" ∧ Forall comma_free [" oauth-2025-04-20"]
  ∧ In " oauth-2025-04-20" [" oauth-2025-04-20"]
  ∧ strings.TrimSpace " oauth-2025-04-20" ≠ " oauth-2025-04-20"
  ∧ In (strings.TrimSpace " oauth-2025-04-20") (existingTokens "oauth-2025-04-20")
  ∧ In " oauth-2025-04-20"
       (headerTokens (mergedBetas canonical_order "oauth-2025-04-20" [" oauth-2025-04-20"]))
  ∧ In "oauth-2025-04-20"
       (headerTokens (mergedBetas canonical_order "oauth-2025-04-20" [" oauth-2025-04-20"])).
Proof.
  assert ("oauth-2025-04-20" ≠ "") as He by discriminate.
  assert (Forall comma_free [" oauth-2025-04-20"]) as Hf by (repeat constructor).
  assert (In " oauth-2025-04-20" [" oauth-2025-04-20"]) as Hb by (left; reflexivity).
  assert (strings.TrimSpace " oauth-2025-04-20" ≠ " oauth-2025-04-20") as Hne
    by (vm_compute; discriminate).
  assert (In (strings.TrimSpace " oauth-2025-04-20") (existingTokens "oauth-2025-04-20"))
    as Hex by (left; reflexivity).
  pose proof (trimmed_and_verbatim_both_kept canonical_order "oauth-2025-04-20"
                [" oauth-2025-04-20"] " oauth-2025-04-20" He Hf Hb Hne Hex)
    as (_ & H1 & H2 & _).
  split; [exact He|]. split; [exact Hf|]. split; [exact Hb|].
  split; [exact Hne|]. split; [exact Hex|]. split; [exact H1|exact H2].
Defined.

(** ** Merging twice *)

Section Idempotence.

Lemma elem_of_tokenSet t h : t ∈ tokenSet h ↔ t ∈ existingTokens h.
Proof. unfold tokenSet. by rewrite elem_of_list_to_set. Qed.

Lemma tokenSet_empty_string : tokenSet "" = {[""]}.
Proof.
  apply set_eq. intros t. rewrite elem_of_tokenSet.
  change (existingTokens "") with [""].
  by rewrite list_elem_of_singleton, elem_of_singleton.
Qed.

(** A token the merge has read is read back as itself. *)
Lemma tokenSet_token e s : s ∈ existingTokens e → tokenSet s = {[s]}.
Proof.
  intros Hs. unfold tokenSet, existingTokens.
  rewrite Split_no_sep.
  - simpl. rewrite (existingTokens_trimmed e s Hs). set_solver.
  - by apply (proj1 (Forall_forall _ _) (existingTokens_comma_free e)).
Qed.

(** The tokens of a joined list are the tokens of its elements. *)
Lemma tokenSet_Join l t :
  l ≠ [] →
  t ∈ tokenSet (strings.Join l ",") ↔ ∃ s, s ∈ l ∧ t ∈ tokenSet s.
Proof.
  intros Hl. rewrite elem_of_tokenSet. unfold existingTokens.
  rewrite (Split_Join l ",") by done. clear Hl.
  induction l as [|e l IH]; simpl.
  - split; [by intros ?%not_elem_of_nil|by intros (s & ?%not_elem_of_nil & _)].
  - rewrite fmap_app, elem_of_app, IH. split.
    + intros [H|(s & Hs & H)].
      * exists e. split; [left|]. by apply elem_of_tokenSet.
      * exists s. split; [by right|done].
    + intros (s & [->|Hs]%elem_of_cons & H).
      * left. by apply elem_of_tokenSet.
      * right. by exists s.
Qed.

Lemma tokenSet_merged_nonempty o e betas t :
  e ≠ "" →
  t ∈ tokenSet (mergedBetas o e betas)
  ↔ t ∈ tokenSet e ∨ ∃ b, b ∈ betas ∧ t ∈ tokenSet b.
Proof.
  intros He. rewrite mergedBetas_nonempty by done.
  rewrite tokenSet_Join by apply allBetas_not_nil. split.
  - intros (s & [Hs|Hs]%elem_of_allBetas & Ht).
    + left. rewrite (tokenSet_token e s Hs) in Ht.
      apply elem_of_singleton in Ht as ->. by apply elem_of_tokenSet.
    + right. by exists s.
  - intros [Ht%elem_of_tokenSet|(b & Hb & Ht)].
    + exists t. split; [apply elem_of_allBetas; by left|].
      rewrite (tokenSet_token e t Ht). by apply elem_of_singleton.
    + exists b. split; [apply elem_of_allBetas; by right|done].
Qed.

Lemma tokenSet_merged_empty o betas t :
  betas ≠ [] →
  t ∈ tokenSet (mergedBetas o "" betas) ↔ ∃ b, b ∈ betas ∧ t ∈ tokenSet b.
Proof. intros Hb. rewrite mergedBetas_empty. by apply tokenSet_Join. Qed.

Lemma tokenSet_inhabited h : ∃ t, t ∈ tokenSet h.
Proof.
  destruct (existingTokens h) as [|t l] eqn:E;
    [by destruct (existingTokens_not_nil h)|].
  exists t. apply elem_of_tokenSet. rewrite E. left.
Qed.

Lemma merged_twice_tokenSet o1 o2 e betas :
  tokenSet (mergedBetas o2 (mergedBetas o1 e betas) betas)
  = tokenSet (mergedBetas o1 e betas).
Proof.
  destruct (decide (betas = [])) as [->|Hb].
  { (* no flag: the set holds the existing tokens only *)
    destruct (decide (e = "")) as [->|He]; [done|].
    destruct (decide (mergedBetas o1 e [] = "")) as [E|E]; [by rewrite E|].
    apply set_eq. intros t. rewrite tokenSet_merged_nonempty by done.
    split; [intros [?|(b & ?%not_elem_of_nil & _)]; done|by left]. }
  destruct (decide (mergedBetas o1 e betas = "")) as [E|E].
  - rewrite E. destruct (decide (e = "")) as [->|He];
      [rewrite mergedBetas_empty in *; by rewrite E|].
    (* the first merge gave the empty string: every token is empty *)
    apply set_eq. intros t.
    rewrite tokenSet_merged_empty by done.
    rewrite tokenSet_empty_string, elem_of_singleton.
    assert (∀ b u, b ∈ betas → u ∈ tokenSet b → u = "") as Hall.
    { intros b u Hb' Hu.
      assert (u ∈ tokenSet (mergedBetas o1 e betas)) as Hin
        by (apply tokenSet_merged_nonempty; [done|right; by exists b]).
      rewrite E, tokenSet_empty_string in Hin. by apply elem_of_singleton in Hin. }
    split.
    + intros (b & Hb' & Ht). by eapply Hall.
    + intros ->. destruct betas as [|b bs]; [done|].
      destruct (tokenSet_inhabited b) as [u Hu].
      exists b. split; [left|].
      by rewrite <- (Hall b u ltac:(left) Hu).
  - apply set_eq. intros t. rewrite (tokenSet_merged_nonempty o2) by done.
    split; [|by left]. intros [Ht|(b & Hb' & Ht)]; [done|].
    destruct (decide (e = "")) as [->|He].
    + apply tokenSet_merged_empty; [done|by exists b].
    + apply tokenSet_merged_nonempty; [done|right; by exists b].
Qed.

End Idempotence.

(** C6: merging the same flags into the result of a merge does not change
    the set of tokens of the header value, whatever the two iteration
    orders; so a request that passes the [anthropic-beta] step twice
    carries the tokens it carried after the first pass. *)
Theorem merge_idempotent (o1 o2 : RangeOrder) (existingBetas : string)
    (cfg : Config) (r : Request) :
  tokenSet (mergedBetas o2 (mergedBetas o1 existingBetas (Betas cfg)) (Betas cfg))
  = tokenSet (mergedBetas o1 existingBetas (Betas cfg))
  ∧ tokenSet (http.Get (Header (setBetas o2 cfg (setBetas o1 cfg r))) "anthropic-beta")
    = tokenSet (http.Get (Header (setBetas o1 cfg r)) "anthropic-beta").
Proof.
  split; [apply merged_twice_tokenSet|].
  unfold setBetas. destruct (0 <? length (Betas cfg)); [|done].
  cbn [Header]. rewrite !Get_Set_eq. apply merged_twice_tokenSet.
Qed.

(** ** Claims on the configuration builder *)

(** C3: the default list has four elements, in this order, and the three
    construction paths put exactly it in place of an empty [Betas]. *)
Theorem default_betas_substituted (T : Type) (o : RangeOrder)
    (accessToken refreshToken userAgent : string) (useBeta : bool)
    (env : gmap string string) :
  length DefaultOAuthBetas = 4
  ∧ DefaultOAuthBetas
    = [ "oauth-2025-04-20"; "interleaved-thinking-2025-05-14";
        "claude-code-20250219"; "fine-grained-tool-streaming-2025-05-14" ]
  ∧ Betas (withDefaultBetas
             {| AccessToken := accessToken; RefreshToken := refreshToken;
                Betas := []; UserAgent := userAgent;
                UseBetaEndpoint := useBeta |}) = DefaultOAuthBetas
  ∧ @WithConfig T o
      {| AccessToken := accessToken; RefreshToken := refreshToken;
         Betas := []; UserAgent := userAgent; UseBetaEndpoint := useBeta |}
    = (λ rc, Apply rc
         [ WithAuthToken accessToken;
           WithMiddleware (oauthMiddleware o
             {| AccessToken := accessToken; RefreshToken := refreshToken;
                Betas := DefaultOAuthBetas; UserAgent := userAgent;
                UseBetaEndpoint := useBeta |}) ])
  ∧ @WithAccessToken T o accessToken
    = (λ rc, Apply rc
         [ WithAuthToken accessToken;
           WithMiddleware (oauthMiddleware o
             {| AccessToken := accessToken; RefreshToken := "";
                Betas := DefaultOAuthBetas; UserAgent := "";
                UseBetaEndpoint := false |}) ])
  ∧ @WithLoadEnv T o env
    = (λ rc, Apply rc
         [ WithAuthToken (loadEnvToken env);
           WithMiddleware (oauthMiddleware o
             {| AccessToken := loadEnvToken env; RefreshToken := "";
                Betas := DefaultOAuthBetas; UserAgent := "";
                UseBetaEndpoint := false |}) ]).
Proof. repeat split. Qed.

Lemma Getenv_firstNonEmpty env name names :
  firstNonEmpty env (name :: names)
  = if String.eqb (Getenv env name) "" then firstNonEmpty env names
    else Getenv env name.
Proof.
  unfold Getenv. simpl. destruct (env !! name) as [[|c v]|]; reflexivity.
Qed.

(** C4: the token [WithLoadEnv] resolves is the value of the first of
    [ANTHROPIC_OAUTH_ACCESS_TOKEN], [ANTHROPIC_ACCESS_TOKEN] that is set to
    a non-empty string, the empty string when neither is; and the unit it
    returns is the one of the bare-credential path for that token, so the
    environment is read when the unit is built and not when a request
    passes. *)
Theorem loadEnv_first_non_empty (T : Type) (o : RangeOrder)
    (env : gmap string string) :
  loadEnvToken env
  = firstNonEmpty env ["ANTHROPIC_OAUTH_ACCESS_TOKEN"; "ANTHROPIC_ACCESS_TOKEN"]
  ∧ @WithLoadEnv T o env
    = WithAccessToken o
        (firstNonEmpty env ["ANTHROPIC_OAUTH_ACCESS_TOKEN"; "ANTHROPIC_ACCESS_TOKEN"]).
Proof.
  assert (loadEnvToken env
          = firstNonEmpty env ["ANTHROPIC_OAUTH_ACCESS_TOKEN"; "ANTHROPIC_ACCESS_TOKEN"])
    as E.
  { rewrite !Getenv_firstNonEmpty. unfold loadEnvToken.
    cbn [firstNonEmpty].
    destruct (String.eqb (Getenv env "ANTHROPIC_OAUTH_ACCESS_TOKEN") ""); [|done].
    by destruct (String.eqb_spec (Getenv env "ANTHROPIC_ACCESS_TOKEN") ""). }
  split; [exact E|]. unfold WithLoadEnv, WithAccessToken. by rewrite E.
Qed.

Example loadEnv_fallback_only :
  loadEnvToken (<["ANTHROPIC_ACCESS_TOKEN" := "E"]> ∅) = "E".
Proof. vm_compute. reflexivity. Qed.
Example loadEnv_primary_wins :
  loadEnvToken (<["ANTHROPIC_OAUTH_ACCESS_TOKEN" := "P"]>
                  (<["ANTHROPIC_ACCESS_TOKEN" := "E"]> ∅)) = "P".
Proof. vm_compute. reflexivity. Qed.
Example loadEnv_primary_empty :
  loadEnvToken (<["ANTHROPIC_OAUTH_ACCESS_TOKEN" := ""]>
                  (<["ANTHROPIC_ACCESS_TOKEN" := "E"]> ∅)) = "E".
Proof. vm_compute. reflexivity. Qed.
Example loadEnv_neither : loadEnvToken ∅ = "".
Proof. vm_compute. reflexivity. Qed.

(** ** Claims on the request mutator *)

(** C9: the middleware returns what its successor returns on the mutated
    request; with a successor that has effects and records its
    invocations, the world is the one the successor left and the record
    has exactly one more entry, the mutated request. *)
Theorem next_called_once (Res W T : Type) (o : RangeOrder) (cfg : Config)
    (r : Request) (next : Request → W → Res * W) (pure_next : MiddlewareNext T)
    (w : W) (log : list Request) :
  oauthMiddleware o cfg r pure_next = pure_next (mutate o cfg r)
  ∧ oauthMiddleware o cfg r (logged next) (w, log)
    = ((next (mutate o cfg r) w).1,
       ((next (mutate o cfg r) w).2, log ++ [mutate o cfg r])).
Proof.
  split; [reflexivity|].
  unfold oauthMiddleware, logged. simpl.
  by destruct (next (mutate o cfg r) w).
Qed.

(** C2, as stated: a configuration with an empty access token still sets
    the header, to [Bearer ] followed by nothing, on a request that had
    none and over the value an earlier unit gave it. *)
Lemma empty_token_sets_authorization :
  ¬ authorization_untouched canonical_order (tokenConfig "") [] emptyRequest
  ∧ ¬ authorization_untouched canonical_order (tokenConfig "")
        [WithAuthToken "secret"] emptyRequest.
Proof.
  split; intros H; vm_compute in H; discriminate.
Qed.

(** C2, amended: whatever the configuration, the request mutator leaves
    the [Authorization] header as it found it; the unit [WithConfig] builds
    applies, besides the mutator, the bearer-token unit, after which the
    header is [Bearer ] followed by the access token, empty or not. *)
Theorem authorization_set_by_bearer_unit_only (T : Type) (o : RangeOrder)
    (cfg : Config) (r : Request) (rc : RequestConfig T) :
  Header (mutate o cfg r) !! "Authorization" = Header r !! "Authorization"
  ∧ WithConfig o cfg rc
    = inr {| Request_ :=
               {| Method := Method (Request_ rc); URL := URL (Request_ rc);
                  Header := <["Authorization" := ["Bearer " +:+ AccessToken cfg]]>
                              (Header (Request_ rc)) |};
             Middlewares :=
               Middlewares rc ++ [oauthMiddleware o (withDefaultBetas cfg)] |}.
Proof.
  split.
  - unfold mutate. rewrite Header_setBetaQuery.
    rewrite lookup_setUserAgent by done. by rewrite lookup_setBetas.
  - unfold WithConfig, RequestOptionFunc. simpl.
    replace (AccessToken (withDefaultBetas cfg)) with (AccessToken cfg); [done|].
    unfold withDefaultBetas. by destruct (length (Betas cfg) =? 0).
Qed.

(** ** Query strings: escaping and parsing *)

Section EscapeFacts.

Lemma append_cons x (a b : string) : String x a +:+ b = String x (a +:+ b).
Proof. reflexivity. Qed.

Lemma append_assoc (a b c : string) : (a +:+ b) +:+ c = a +:+ (b +:+ c).
Proof. induction a as [|x a IH]; [done|]. by rewrite !append_cons, IH. Qed.

Lemma append_nil_r (a : string) : a +:+ "" = a.
Proof. induction a as [|x a IH]; [done|]. by rewrite append_cons, IH. Qed.

Lemma ContainsByte_append a b c :
  strings.ContainsByte (a +:+ b) c
  = strings.ContainsByte a c || strings.ContainsByte b c.
Proof.
  induction a as [|x a IH]; [done|].
  rewrite append_cons. cbn [strings.ContainsByte]. rewrite IH. by rewrite orb_assoc.
Qed.

Lemma Cut_append a b sep :
  strings.ContainsByte a sep = false →
  strings.Cut (a +:+ String sep b) sep = (a, b).
Proof.
  induction a as [|x a IH].
  - intros _. change ("" +:+ String sep b) with (String sep b).
    cbn [strings.Cut]. by rewrite Ascii.eqb_refl.
  - rewrite append_cons. cbn [strings.Cut strings.ContainsByte].
    intros [-> H]%orb_false_iff. by rewrite (IH H).
Qed.

Lemma QueryUnescape_escape_cons c s :
  url.QueryUnescape (url.QueryEscape (String c s))
  = match url.QueryUnescape (url.QueryEscape s) with
    | Some t => Some (String c t)
    | None => None
    end.
Proof. destruct c as [[] [] [] [] [] [] [] []]; reflexivity. Qed.

(** Unescaping undoes escaping. *)
Lemma QueryUnescape_escape s : url.QueryUnescape (url.QueryEscape s) = Some s.
Proof.
  induction s as [|c s IH]; [done|].
  by rewrite QueryUnescape_escape_cons, IH.
Qed.

Lemma QueryEscape_cons_free c s d :
  d = "&"%char ∨ d = "="%char ∨ d = ";"%char →
  strings.ContainsByte (url.QueryEscape (String c s)) d
  = strings.ContainsByte (url.QueryEscape s) d.
Proof.
  intros [H|[H|H]]; subst d; destruct c as [[] [] [] [] [] [] [] []]; reflexivity.
Qed.

(** An escaped string has no [&], [=] or [;]. *)
Lemma QueryEscape_free s d :
  d = "&"%char ∨ d = "="%char ∨ d = ";"%char →
  strings.ContainsByte (url.QueryEscape s) d = false.
Proof.
  intros Hd. induction s as [|c s IH]; [done|].
  by rewrite QueryEscape_cons_free.
Qed.

End EscapeFacts.

Section QueryFacts.

Lemma pairString_free kx d :
  d = "&"%char ∨ d = ";"%char →
  strings.ContainsByte (pairString kx) d = false.
Proof.
  intros Hd. unfold pairString.
  rewrite !ContainsByte_append, !QueryEscape_free by tauto.
  destruct Hd; by subst d.
Qed.

Lemma pairString_not_empty kx : pairString kx ≠ "".
Proof.
  unfold pairString. destruct (url.QueryEscape kx.1); discriminate.
Qed.

Lemma parsePair_pairString m kx : url.parsePair m (pairString kx) = addValue m kx.
Proof.
  unfold url.parsePair.
  rewrite pairString_free by tauto.
  destruct (String.eqb_spec (pairString kx) "") as [E|_];
    [by destruct (pairString_not_empty kx)|].
  unfold pairString.
  change ("=" +:+ url.QueryEscape kx.2) with (String "=" (url.QueryEscape kx.2)).
  rewrite Cut_append by (apply QueryEscape_free; tauto).
  by rewrite !QueryUnescape_escape.
Qed.

Lemma foldl_parsePair m kxs :
  foldl url.parsePair m (map pairString kxs) = foldl addValue m kxs.
Proof.
  revert m. induction kxs as [|kx kxs IH]; intros m; [done|].
  simpl. by rewrite parsePair_pairString, IH.
Qed.

Lemma length_pos_not_empty (buf : string) :
  (0 <? String.length buf) = negb (String.eqb buf "").
Proof. by destruct buf. Qed.

Lemma Split_foldl_appendPair buf ps :
  buf ≠ "" →
  Forall (λ p, strings.ContainsByte p "&" = false) ps →
  strings.Split (foldl appendPair buf ps) "&" = strings.Split buf "&" ++ ps.
Proof.
  intros Hbuf Hps. revert buf Hbuf.
  induction Hps as [|p ps Hp _ IH]; intros buf Hbuf; simpl.
  - by rewrite app_nil_r.
  - assert (appendPair buf p = buf +:+ String "&" p) as E.
    { unfold appendPair. destruct buf as [|a buf']; [done|].
      exact (append_assoc (String a buf') "&" p). }
    rewrite IH.
    + rewrite E, Split_app_sep, (Split_no_sep p) by done.
      by rewrite <- app_assoc.
    + rewrite E. by destruct buf.
Qed.

(** The pieces between [&] of an encoded buffer are its pairs. *)
Lemma Split_encoded kxs :
  kxs ≠ [] →
  strings.Split (foldl appendPair "" (map pairString kxs)) "&"
  = map pairString kxs.
Proof.
  destruct kxs as [|kx kxs]; [done|]. intros _. simpl.
  change (appendPair "" (pairString kx)) with (pairString kx).
  rewrite Split_foldl_appendPair.
  - by rewrite Split_no_sep by (apply pairString_free; tauto).
  - apply pairString_not_empty.
  - apply Forall_fmap, Forall_true. intros kx'. apply pairString_free. tauto.
Qed.

Lemma foldl_writePair k buf vs :
  foldl (url.writePair (url.QueryEscape k)) buf vs
  = foldl appendPair buf (map pairString (map (pair k) vs)).
Proof.
  revert buf. induction vs as [|x vs IH]; intros buf; [done|].
  simpl. by rewrite <- IH.
Qed.

Lemma Encode_buffer (v : url.Values) keys buf :
  foldl (λ buf k,
           let vs := default [] (v !! k) in
           let keyEscaped := url.QueryEscape k in
           foldl (url.writePair keyEscaped) buf vs) buf keys
  = foldl appendPair buf (map pairString (valuePairs v keys)).
Proof.
  revert buf. induction keys as [|k keys IH]; intros buf; [done|].
  cbn [foldl]. rewrite IH. cbn zeta. rewrite foldl_writePair.
  unfold valuePairs. cbn [flat_map]. by rewrite map_app, foldl_app.
Qed.

Lemma insert_sorted_Permutation k l : url.insert_sorted k l ≡ₚ k :: l.
Proof.
  induction l as [|x l IH]; simpl; [done|].
  destruct (String.leb k x); [done|]. rewrite IH. apply Permutation_swap.
Qed.

Lemma Sort_Permutation l : url.Sort l ≡ₚ l.
Proof.
  induction l as [|x l IH]; simpl; [done|].
  by rewrite insert_sorted_Permutation, IH.
Qed.

Lemma foldl_addValue_more (m : url.Values) k pre vs :
  m !! k = Some pre →
  foldl addValue m (map (pair k) vs) = <[k := pre ++ vs]> m.
Proof.
  revert pre m. induction vs as [|x vs IH]; intros pre m Hm; simpl.
  - rewrite app_nil_r. by rewrite insert_id.
  - unfold addValue at 2. simpl. rewrite Hm. simpl.
    rewrite (IH (pre ++ [x])) by apply lookup_insert_eq.
    by rewrite insert_insert_eq, <- app_assoc.
Qed.

(** Adding the values of one key to a map that has no such key. *)
Lemma foldl_addValue_key (m : url.Values) k vs :
  m !! k = None → vs ≠ [] →
  foldl addValue m (map (pair k) vs) = <[k := vs]> m.
Proof.
  intros Hk Hvs. destruct vs as [|x vs]; [done|]. simpl.
  unfold addValue at 2. simpl. rewrite Hk. simpl.
  rewrite (foldl_addValue_more _ k [x]) by apply lookup_insert_eq.
  by rewrite insert_insert_eq.
Qed.

Lemma foldl_addValue_keys (v m : url.Values) keys j :
  wfValues v → NoDup keys →
  (∀ k, k ∈ keys → m !! k = None ∧ is_Some (v !! k)) →
  foldl addValue m (valuePairs v keys) !! j
  = if decide (j ∈ keys) then v !! j else m !! j.
Proof.
  intros Hwf Hnd. revert m. induction Hnd as [|k keys Hk Hnd IH]; intros m Hm.
  - cbn [valuePairs flat_map foldl]. case_decide as Hj; [|done].
    by apply not_elem_of_nil in Hj.
  - unfold valuePairs. cbn [flat_map]. rewrite foldl_app.
    destruct (Hm k ltac:(left)) as [Hmk [vs Hvs]].
    rewrite Hvs. cbn [default].
    rewrite foldl_addValue_key by eauto.
    fold (valuePairs v keys). rewrite IH.
    + destruct (decide (j = k)) as [->|Hne].
      * repeat case_decide; try done.
        -- by rewrite lookup_insert_eq.
        -- exfalso. set_solver.
      * rewrite lookup_insert_ne by done.
        repeat case_decide; try done; exfalso; set_solver.
    + intros k' Hk'. destruct (Hm k' ltac:(by right)) as [? ?].
      split; [|done]. rewrite lookup_insert_ne; [done|].
      intros ->. done.
Qed.

Lemma parsePair_wf m p : wfValues m → wfValues (url.parsePair m p).
Proof.
  intros Hm. unfold url.parsePair.
  destruct (strings.ContainsByte p ";"); [done|].
  destruct (String.eqb p ""); [done|].
  destruct (strings.Cut p "=") as [key value].
  destruct (url.QueryUnescape key) as [key'|]; [|done].
  destruct (url.QueryUnescape value) as [value'|]; [|done].
  intros k l. rewrite lookup_insert. case_decide; [|apply Hm].
  intros [= <-]. by destruct (default [] (m !! key')).
Qed.

Lemma ParseQuery_wf query : wfValues (url.ParseQuery query).
Proof.
  assert (wfValues (∅ : url.Values)) as H0
    by (intros k l; by rewrite lookup_empty).
  unfold url.ParseQuery.
  destruct (strings.Count query "&" + 1 <=? url.maxQueryParams)%N; [|done].
  revert H0. generalize (∅ : url.Values).
  induction (strings.Split query "&") as [|p ps IH]; intros m Hm; [done|].
  simpl. by apply IH, parsePair_wf.
Qed.

(** The pairs [parseQuery] counts are the pieces between [&]. *)
Lemma Count_Split s sep :
  (strings.Count s sep + 1)%N = N.of_nat (length (strings.Split s sep)).
Proof.
  induction s as [|c s IH]; [done|]. cbn [strings.Count strings.Split].
  destruct (Ascii.eqb c sep).
  - cbn [length]. lia.
  - destruct (Split_cons s sep) as (h & t & E). rewrite E in IH |- *.
    cbn [length] in *. lia.
Qed.

Lemma totalValues_insert_None (m : url.Values) k l :
  m !! k = None → totalValues (<[k := l]> m) = length l + totalValues m.
Proof.
  intros Hk. unfold totalValues. by rewrite map_to_list_insert.
Qed.

Lemma totalValues_delete (m : url.Values) k l :
  m !! k = Some l → totalValues m = length l + totalValues (delete k m).
Proof.
  intros Hk. unfold totalValues. by rewrite <- (map_to_list_delete m k l).
Qed.

Lemma totalValues_insert (m : url.Values) k l :
  totalValues (<[k := l]> m) = length l + totalValues (delete k m).
Proof.
  rewrite <- insert_delete_eq. apply totalValues_insert_None, lookup_delete_eq.
Qed.

Lemma totalValues_delete_le (m : url.Values) k :
  totalValues (delete k m) ≤ totalValues m.
Proof.
  destruct (m !! k) as [l|] eqn:E.
  - rewrite (totalValues_delete m k l E). lia.
  - by rewrite delete_id.
Qed.

Lemma totalValues_parsePair m p :
  totalValues (url.parsePair m p) ≤ S (totalValues m).
Proof.
  unfold url.parsePair.
  destruct (strings.ContainsByte p ";"); [lia|].
  destruct (String.eqb p ""); [lia|].
  destruct (strings.Cut p "=") as [key value].
  destruct (url.QueryUnescape key) as [key'|]; [|lia].
  destruct (url.QueryUnescape value) as [value'|]; [|lia].
  rewrite totalValues_insert, length_app. cbn [length].
  destruct (m !! key') as [l|] eqn:E; simpl.
  - pose proof (totalValues_delete m key' l E). lia.
  - rewrite delete_id by done. lia.
Qed.

Lemma totalValues_foldl_parsePair m ps :
  totalValues (foldl url.parsePair m ps) ≤ totalValues m + length ps.
Proof.
  revert m. induction ps as [|p ps IH]; intros m; cbn [foldl length]; [lia|].
  specialize (IH (url.parsePair m p)).
  pose proof (totalValues_parsePair m p). lia.
Qed.

Lemma totalValues_empty : totalValues (∅ : url.Values) = 0.
Proof. unfold totalValues. by rewrite map_to_list_empty. Qed.

(** The parser reads at most one value for each piece of the query. *)
Lemma totalValues_ParseQuery query :
  totalValues (url.ParseQuery query) ≤ length (strings.Split query "&").
Proof.
  unfold url.ParseQuery.
  destruct (strings.Count query "&" + 1 <=? url.maxQueryParams)%N.
  - pose proof (totalValues_foldl_parsePair ∅ (strings.Split query "&")).
    rewrite totalValues_empty in *. lia.
  - rewrite totalValues_empty. lia.
Qed.

Lemma totalValues_Set (v : url.Values) key value :
  totalValues (url.Set_ v key value) ≤ S (totalValues v).
Proof.
  unfold url.Set_. rewrite totalValues_insert. cbn [length].
  pose proof (totalValues_delete_le v key). lia.
Qed.

Lemma length_valuePairs (v : url.Values) keys :
  keys ≡ₚ (map_to_list v).*1 →
  length (valuePairs v keys) = totalValues v.
Proof.
  intros Hperm.
  assert (∀ ks, length (valuePairs v ks)
                = sum_list_with (λ k, length (default [] (v !! k))) ks) as Hlen.
  { induction ks as [|k ks IH]; [done|].
    unfold valuePairs in *. cbn [flat_map sum_list_with].
    by rewrite length_app, length_map, IH. }
  rewrite Hlen, Hperm. unfold totalValues.
  assert (∀ kl, kl ∈ map_to_list v → v !! kl.1 = Some kl.2) as Hin
    by (intros [k l]; apply elem_of_map_to_list).
  revert Hin. generalize (map_to_list v) as L.
  induction L as [|[k l] rest IH]; intros Hin; [done|].
  cbn [fmap list_fmap sum_list_with fst snd].
  pose proof (Hin (k, l) ltac:(left)) as Hk. cbn [fst snd] in Hk.
  rewrite Hk. cbn [default from_option id]. f_equal.
  apply IH. intros kl Hkl. apply Hin. by right.
Qed.

(** Parsing an encoded query gives back the values, when they are no more
    than the parser accepts. *)
Lemma ParseQuery_Encode (v : url.Values) :
  wfValues v → (N.of_nat (totalValues v) ≤ url.maxQueryParams)%N →
  url.ParseQuery (url.Encode v) = v.
Proof.
  intros Hwf Hmax. unfold url.Encode.
  destruct (size v =? 0) eqn:Hsize.
  { apply Nat.eqb_eq, map_size_empty_iff in Hsize. by subst v. }
  rewrite Encode_buffer. unfold url.ParseQuery.
  set (keys := url.Sort (map_to_list v).*1).
  assert (keys ≡ₚ (map_to_list v).*1) as Hperm by apply Sort_Permutation.
  assert (NoDup keys) as Hnd by (rewrite Hperm; apply NoDup_fst_map_to_list).
  assert (∀ k, k ∈ keys ↔ is_Some (v !! k)) as Hkeys.
  { intros k. rewrite Hperm, list_elem_of_fmap. split.
    - intros ([k' l] & -> & H%elem_of_map_to_list). by exists l.
    - intros [l H]. exists (k, l). split; [done|]. by apply elem_of_map_to_list. }
  assert (valuePairs v keys ≠ []) as Hne.
  { destruct (map_to_list v) as [|[k l] rest] eqn:E.
    - apply map_to_list_empty_iff in E. subst v.
      apply Nat.eqb_neq in Hsize. by rewrite map_size_empty in Hsize.
    - assert (v !! k = Some l) as Hk
        by (apply elem_of_map_to_list; rewrite E; left).
      assert (k ∈ keys) as Hin by (apply Hkeys; eauto).
      destruct l as [|x l]; [by destruct (Hwf k [] Hk)|].
      apply list_elem_of_split in Hin as (k1 & k2 & Ek).
      rewrite Ek. unfold valuePairs. rewrite flat_map_app. cbn [flat_map].
      rewrite Hk. simpl. by destruct (flat_map _ k1). }
  rewrite Count_Split, Split_encoded by done.
  rewrite length_map, (length_valuePairs v keys Hperm).
  apply N.leb_le in Hmax. rewrite Hmax.
  rewrite foldl_parsePair.
  apply map_eq. intros j.
  rewrite foldl_addValue_keys; [|done|done|].
  - case_decide as Hj; [done|]. rewrite lookup_empty.
    destruct (v !! j) eqn:E; [|done]. destruct Hj. apply Hkeys. eauto.
  - intros k Hk. split; [apply lookup_empty|by apply Hkeys].
Qed.

End QueryFacts.

(** ** Claim on the query marker *)

Lemma URL_mutate o cfg r :
  UseBetaEndpoint cfg = true →
  URL (mutate o cfg r)
  = {| url.Path := url.Path (URL r);
       url.RawQuery := url.Encode (url.Set_ (url.Query (URL r)) "beta" "true") |}.
Proof.
  intros Hb. unfold mutate, setBetaQuery. rewrite Hb. cbn [URL].
  by rewrite URL_setUserAgent, URL_setBetas.
Qed.

Lemma Set_wf (v : url.Values) key value :
  wfValues v → wfValues (url.Set_ v key value).
Proof.
  intros Hv k l. unfold url.Set_. rewrite lookup_insert.
  case_decide; [by intros [= <-]|apply Hv].
Qed.

Lemma elem_of_sorted_keys (v : url.Values) k :
  k ∈ url.Sort (map_to_list v).*1 ↔ is_Some (v !! k).
Proof.
  rewrite Sort_Permutation, list_elem_of_fmap. split.
  - intros ([k' l] & -> & H%elem_of_map_to_list). by exists l.
  - intros [l H]. exists (k, l). split; [done|]. by apply elem_of_map_to_list.
Qed.

(** The pieces between [&] of an encoded query are the escaped pairs of
    its values, key by key in sorted order. *)
Lemma Split_Encode (v : url.Values) :
  wfValues v → v ≠ ∅ →
  strings.Split (url.Encode v) "&"
  = map pairString (valuePairs v (url.Sort (map_to_list v).*1)).
Proof.
  intros Hwf Hne. unfold url.Encode.
  destruct (size v =? 0) eqn:Hsize.
  { apply Nat.eqb_eq, map_size_empty_iff in Hsize. done. }
  rewrite Encode_buffer. apply Split_encoded.
  destruct (map_to_list v) as [|[k l] rest] eqn:E.
  { by apply map_to_list_empty_iff in E. }
  assert (v !! k = Some l) as Hk
    by (apply elem_of_map_to_list; rewrite E; left).
  assert (k ∈ url.Sort ((k, l) :: rest).*1) as Hin
    by (rewrite Sort_Permutation; left).
  destruct l as [|x l]; [by destruct (Hwf k [] Hk)|].
  apply list_elem_of_split in Hin as (k1 & k2 & Ek).
  rewrite Ek. unfold valuePairs. rewrite flat_map_app. cbn [flat_map].
  rewrite Hk. simpl. by destruct (flat_map _ k1).
Qed.

(** Every value of every key is written, as an escaped pair. *)
Lemma In_Split_Encode (v : url.Values) key value :
  wfValues v → In value (default [] (v !! key)) →
  In (pairString (key, value)) (strings.Split (url.Encode v) "&").
Proof.
  intros Hwf Hin.
  destruct (v !! key) as [l|] eqn:E; [|done]. cbn [default from_option id] in Hin.
  assert (v ≠ ∅) as Hne by (intros ->; by rewrite lookup_empty in E).
  rewrite Split_Encode by done.
  apply in_map, in_flat_map. exists key. split.
  - apply list_elem_of_In, elem_of_sorted_keys. eauto.
  - rewrite E. by apply in_map.
Qed.

(** Nothing else is written. *)
Lemma Split_Encode_inv (v : url.Values) p :
  wfValues v → v ≠ ∅ →
  In p (strings.Split (url.Encode v) "&") →
  ∃ key value, p = pairString (key, value) ∧ In value (default [] (v !! key)).
Proof.
  intros Hwf Hne. rewrite Split_Encode by done.
  intros ([k x] & <- & (k' & Hk' & Hx)%in_flat_map)%in_map_iff.
  apply in_map_iff in Hx as (x' & [= <- <-] & Hx').
  by exists k', x'.
Qed.

Lemma few_values_after_Set query key value :
  (strings.Count query "&" + 1 < url.maxQueryParams)%N →
  (N.of_nat (totalValues (url.Set_ (url.ParseQuery query) key value))
   ≤ url.maxQueryParams)%N.
Proof.
  intros Hlt. rewrite Count_Split in Hlt.
  pose proof (totalValues_Set (url.ParseQuery query) key value).
  pose proof (totalValues_ParseQuery query). lia.
Qed.

(** The query the successor reads, for a request under the limit. *)
Lemma Query_mutate o cfg r :
  UseBetaEndpoint cfg = true →
  (strings.Count (url.RawQuery (URL r)) "&" + 1 < url.maxQueryParams)%N →
  url.Query (URL (mutate o cfg r)) = <["beta" := ["true"]]> (url.Query (URL r)).
Proof.
  intros Hq Hlt. rewrite URL_mutate by done. unfold url.Query at 1.
  cbn [url.RawQuery]. apply ParseQuery_Encode.
  - apply Set_wf, ParseQuery_wf.
  - by apply few_values_after_Set.
Qed.

Lemma beta_pair_written o cfg r :
  UseBetaEndpoint cfg = true →
  In "beta=true" (strings.Split (url.RawQuery (URL (mutate o cfg r))) "&").
Proof.
  intros Hq. rewrite URL_mutate by done. cbn [url.RawQuery].
  change "beta=true" with (pairString ("beta", "true")).
  apply In_Split_Encode; [apply Set_wf, ParseQuery_wf|].
  unfold url.Set_. rewrite lookup_insert_eq. by left.
Qed.




Example beta_query_foo_bar :
  (let r := mutate canonical_order
       {| AccessToken := "t"; RefreshToken := ""; Betas := [];
          UserAgent := ""; UseBetaEndpoint := true |}
       {| Method := "POST";
          URL := {| url.Path := "/v1/messages"; url.RawQuery := "foo=bar&beta=0" |};
          Header := ∅ |} in
   (url.RawQuery (URL r), url.Get (url.Query (URL r)) "foo",
    url.Get (url.Query (URL r)) "beta"))
  = ("beta=true&foo=bar", "bar", "true").
Proof. vm_compute. reflexivity. Qed.

(** * Further properties of the middleware *)

(** ** What the mutation touches and what it leaves *)

Lemma Method_mutate o cfg r : Method (mutate o cfg r) = Method r.
Proof.
  unfold mutate, setBetaQuery, setUserAgent, setBetas.
  destruct (UseBetaEndpoint cfg), (negb (String.eqb (UserAgent cfg) "")),
    (0 <? length (Betas cfg)); reflexivity.
Qed.

Lemma Path_mutate o cfg r : url.Path (URL (mutate o cfg r)) = url.Path (URL r).
Proof.
  unfold mutate, setBetaQuery.
  destruct (UseBetaEndpoint cfg); cbn [URL url.Path];
    by rewrite URL_setUserAgent, URL_setBetas.
Qed.

(** X1: the [User-Agent] header of the request the successor sees is the
    configured one, as the only value and whatever the header held, when
    the configuration has one; it is left as it was when the configured
    user agent is empty. *)
Theorem user_agent_overridden (o : RangeOrder) (cfg : Config) (r : Request) :
  Header (mutate o cfg r) !! "User-Agent"
  = if String.eqb (UserAgent cfg) "" then Header r !! "User-Agent"
    else Some [UserAgent cfg].
Proof.
  unfold mutate. rewrite Header_setBetaQuery. unfold setUserAgent.
  destruct (String.eqb (UserAgent cfg) ""); cbn [negb].
  - by apply lookup_setBetas.
  - cbn [Header]. apply lookup_insert_eq.
Qed.

(** X2: the middleware writes two header keys only.  Every other header
    keeps its values, and the method and the path of the request are
    unchanged. *)
Theorem other_headers_untouched (o : RangeOrder) (cfg : Config) (r : Request)
    (k : string) :
  k ≠ "Anthropic-Beta" → k ≠ "User-Agent" →
  Header (mutate o cfg r) !! k = Header r !! k
  ∧ Method (mutate o cfg r) = Method r
  ∧ url.Path (URL (mutate o cfg r)) = url.Path (URL r).
Proof.
  intros Hb Hu. split; [|split; [apply Method_mutate|apply Path_mutate]].
  unfold mutate. rewrite Header_setBetaQuery.
  rewrite lookup_setUserAgent by done. by apply lookup_setBetas.
Qed.

Lemma other_headers_untouched_witness :
  "X-Api-Key" ≠ "Anthropic-Beta" ∧ "X-Api-Key" ≠ "User-Agent"
  ∧ Header (mutate canonical_order
       {| AccessToken := "t"; RefreshToken := ""; Betas := ["a"];
          UserAgent := "app/1.0"; UseBetaEndpoint := true |}
       {| Method := "POST";
          URL := {| url.Path := "/v1/messages"; url.RawQuery := "" |};
          Header := <["X-Api-Key" := ["k"]]> ∅ |}) !! "X-Api-Key"
    = Some ["k"].
Proof.
  assert ("X-Api-Key" ≠ "Anthropic-Beta") as H1 by discriminate.
  assert ("X-Api-Key" ≠ "User-Agent") as H2 by discriminate.
  split; [exact H1|split; [exact H2|]].
  exact (proj1 (other_headers_untouched canonical_order
    {| AccessToken := "t"; RefreshToken := ""; Betas := ["a"];
       UserAgent := "app/1.0"; UseBetaEndpoint := true |}
    {| Method := "POST";
       URL := {| url.Path := "/v1/messages"; url.RawQuery := "" |};
       Header := <["X-Api-Key" := ["k"]]> ∅ |} "X-Api-Key" H1 H2)).
Defined.

(** X3: a configuration with no flag, no user agent and no beta endpoint
    makes the middleware hand the request on exactly as it received it. *)
Theorem empty_config_is_identity (o : RangeOrder) (cfg : Config) (r : Request) :
  Betas cfg = [] → UserAgent cfg = "" → UseBetaEndpoint cfg = false →
  mutate o cfg r = r.
Proof.
  intros Hb Hu Hq. unfold mutate, setBetaQuery, setUserAgent, setBetas.
  by rewrite Hb, Hu, Hq.
Qed.

Lemma empty_config_is_identity_witness :
  Betas (tokenConfig "t") = [] ∧ UserAgent (tokenConfig "t") = ""
  ∧ UseBetaEndpoint (tokenConfig "t") = false
  ∧ mutate canonical_order (tokenConfig "t")
      {| Method := "GET";
         URL := {| url.Path := "/v1/models"; url.RawQuery := "a=%zz&b" |};
         Header := <["Anthropic-Beta" := ["x, y"; "z"]]> ∅ |}
    = {| Method := "GET";
         URL := {| url.Path := "/v1/models"; url.RawQuery := "a=%zz&b" |};
         Header := <["Anthropic-Beta" := ["x, y"; "z"]]> ∅ |}.
Proof.
  split; [reflexivity|split; [reflexivity|split; [reflexivity|]]].
  exact (empty_config_is_identity canonical_order (tokenConfig "t")
    {| Method := "GET";
       URL := {| url.Path := "/v1/models"; url.RawQuery := "a=%zz&b" |};
       Header := <["Anthropic-Beta" := ["x, y"; "z"]]> ∅ |}
    eq_refl eq_refl eq_refl).
Defined.

(** X4: without [UseBetaEndpoint] the URL is not touched: the raw query
    reaches the successor byte for byte, malformed pairs included. *)
Theorem url_untouched_without_beta_endpoint (o : RangeOrder) (cfg : Config)
    (r : Request) :
  UseBetaEndpoint cfg = false → URL (mutate o cfg r) = URL r.
Proof.
  intros Hq. unfold mutate, setBetaQuery. rewrite Hq.
  by rewrite URL_setUserAgent, URL_setBetas.
Qed.

Lemma url_untouched_without_beta_endpoint_witness :
  UseBetaEndpoint
    {| AccessToken := "t"; RefreshToken := ""; Betas := ["a"];
       UserAgent := "app/1.0"; UseBetaEndpoint := false |} = false
  ∧ URL (mutate canonical_order
       {| AccessToken := "t"; RefreshToken := ""; Betas := ["a"];
          UserAgent := "app/1.0"; UseBetaEndpoint := false |}
       {| Method := "GET";
          URL := {| url.Path := "/v1/models"; url.RawQuery := "z=1&a=%zz;b" |};
          Header := ∅ |})
    = {| url.Path := "/v1/models"; url.RawQuery := "z=1&a=%zz;b" |}.
Proof.
  split; [reflexivity|].
  exact (url_untouched_without_beta_endpoint canonical_order
    {| AccessToken := "t"; RefreshToken := ""; Betas := ["a"];
       UserAgent := "app/1.0"; UseBetaEndpoint := false |}
    {| Method := "GET";
       URL := {| url.Path := "/v1/models"; url.RawQuery := "z=1&a=%zz;b" |};
       Header := ∅ |} eq_refl).
Defined.

(** ** The [anthropic-beta] header *)

Lemma lookup_beta_mutate o cfg r :
  Betas cfg ≠ [] →
  Header (mutate o cfg r) !! "Anthropic-Beta"
  = Some [mergedBetas o (http.Get (Header r) "anthropic-beta") (Betas cfg)].
Proof.
  intros Hb. unfold mutate. rewrite Header_setBetaQuery.
  rewrite lookup_setUserAgent by done.
  unfold setBetas. destruct (Betas cfg) as [|b bs] eqn:E; [done|].
  simpl length. cbn [Nat.ltb Nat.leb Header].
  apply lookup_insert_eq.
Qed.

(** X5: when the configuration has flags, the header leaves the
    middleware with one value, merged from the first value the header
    had; the further values of a header with several are not merged and
    are gone. *)
Theorem only_first_value_merged (o : RangeOrder) (cfg : Config) (r : Request)
    (first : string) (others : list string) :
  Betas cfg ≠ [] →
  Header r !! "Anthropic-Beta" = Some (first :: others) →
  Header (mutate o cfg r) !! "Anthropic-Beta"
  = Some [mergedBetas o first (Betas cfg)].
Proof.
  intros Hb Hr. rewrite lookup_beta_mutate by done.
  unfold http.Get. change (http.CanonicalHeaderKey "anthropic-beta")
    with "Anthropic-Beta". by rewrite Hr.
Qed.

Lemma only_first_value_merged_witness :
  Betas {| AccessToken := "t"; RefreshToken := ""; Betas := ["a"];
           UserAgent := ""; UseBetaEndpoint := false |} ≠ []
  ∧ Header {| Method := "POST";
              URL := {| url.Path := "/v1/messages"; url.RawQuery := "" |};
              Header := <["Anthropic-Beta" := ["a"; "files-api-2025-04-14"]]> ∅ |}
      !! "Anthropic-Beta" = Some ("a" :: ["files-api-2025-04-14"])
  ∧ Header (mutate canonical_order
       {| AccessToken := "t"; RefreshToken := ""; Betas := ["a"];
          UserAgent := ""; UseBetaEndpoint := false |}
       {| Method := "POST";
          URL := {| url.Path := "/v1/messages"; url.RawQuery := "" |};
          Header := <["Anthropic-Beta" := ["a"; "files-api-2025-04-14"]]> ∅ |})
      !! "Anthropic-Beta" = Some ["a"].
Proof.
  assert (Betas {| AccessToken := "t"; RefreshToken := ""; Betas := ["a"];
                   UserAgent := ""; UseBetaEndpoint := false |} ≠ []) as Hb
    by discriminate.
  assert (Header {| Method := "POST";
              URL := {| url.Path := "/v1/messages"; url.RawQuery := "" |};
              Header := <["Anthropic-Beta" := ["a"; "files-api-2025-04-14"]]> ∅ |}
            !! "Anthropic-Beta" = Some ("a" :: ["files-api-2025-04-14"])) as Hr
    by (vm_compute; reflexivity).
  split; [exact Hb|]. split; [exact Hr|].
  rewrite (only_first_value_merged canonical_order _ _ "a"
             ["files-api-2025-04-14"] Hb Hr).
  vm_compute. reflexivity.
Defined.

Lemma withDefaultBetas_explicit cfg : Betas cfg ≠ [] → withDefaultBetas cfg = cfg.
Proof.
  intros Hb. unfold withDefaultBetas. by destruct (Betas cfg).
Qed.

Lemma headerTokens_joined betas :
  betas ≠ [] → Forall comma_free betas →
  headerTokens (strings.Join betas ",") = betas.
Proof. intros Hb Hf. by apply Split_Join_no_sep. Qed.

(** X6: flags given in the configuration replace the default ones, they
    are not added to them.  On a request with no [anthropic-beta] value the
    header built by [WithConfig]'s middleware holds the given flags and
    nothing else, in their order. *)
Theorem explicit_betas_replace_defaults (o : RangeOrder) (cfg : Config)
    (r : Request) :
  Betas cfg ≠ [] →
  Forall comma_free (Betas cfg) →
  http.Get (Header r) "anthropic-beta" = "" →
  headerTokens (http.Get (Header (mutate o (withDefaultBetas cfg) r)) "anthropic-beta")
  = Betas cfg.
Proof.
  intros Hb Hf He. rewrite withDefaultBetas_explicit by done.
  rewrite mutate_beta_header by done. rewrite He, mergedBetas_empty.
  by apply headerTokens_joined.
Qed.

Lemma explicit_betas_replace_defaults_witness :
  Betas {| AccessToken := "t"; RefreshToken := ""; Betas := ["custom-beta"];
           UserAgent := ""; UseBetaEndpoint := false |} ≠ []
  ∧ Forall comma_free ["custom-beta"]
  ∧ http.Get (Header emptyRequest) "anthropic-beta" = ""
  ∧ headerTokens (http.Get (Header (mutate canonical_order
       (withDefaultBetas
          {| AccessToken := "t"; RefreshToken := ""; Betas := ["custom-beta"];
             UserAgent := ""; UseBetaEndpoint := false |}) emptyRequest))
       "anthropic-beta")
    = ["custom-beta"].
Proof.
  assert (Betas {| AccessToken := "t"; RefreshToken := ""; Betas := ["custom-beta"];
                   UserAgent := ""; UseBetaEndpoint := false |} ≠ []) as Hb
    by discriminate.
  assert (Forall comma_free ["custom-beta"]) as Hf by (repeat constructor).
  assert (http.Get (Header emptyRequest) "anthropic-beta" = "") as He
    by reflexivity.
  split; [exact Hb|split; [exact Hf|split; [exact He|]]].
  exact (explicit_betas_replace_defaults canonical_order
    {| AccessToken := "t"; RefreshToken := ""; Betas := ["custom-beta"];
       UserAgent := ""; UseBetaEndpoint := false |} emptyRequest Hb Hf He).
Defined.

Lemma flag_in_mutated_header o cfg r b :
  Forall comma_free (Betas cfg) →
  In b (Betas cfg) →
  In b (headerTokens (http.Get (Header (mutate o cfg r)) "anthropic-beta")).
Proof.
  intros Hf Hb.
  assert (Betas cfg ≠ []) as Hne by (intros E; by rewrite E in Hb).
  rewrite mutate_beta_header by done.
  destruct (decide (http.Get (Header r) "anthropic-beta" = "")) as [->|He].
  - rewrite mergedBetas_empty. by rewrite headerTokens_joined.
  - rewrite headerTokens_merged by done.
    apply list_elem_of_In, elem_of_allBetas. right. by apply list_elem_of_In.
Qed.

(** X7: every configured flag is one of the comma-separated pieces of the
    header the successor sees, whatever the header held before (nothing, an
    empty value, or flags of its own), provided no flag contains a comma. *)
Theorem configured_flags_present (o : RangeOrder) (cfg : Config) (r : Request)
    (b : string) :
  Forall comma_free (Betas cfg) →
  In b (Betas cfg) →
  In b (headerTokens (http.Get (Header (mutate o cfg r)) "anthropic-beta")).
Proof. apply flag_in_mutated_header. Qed.

Lemma configured_flags_present_witness :
  Forall comma_free ["a"; "b"] ∧ In "b" ["a"; "b"]
  ∧ In "b" (headerTokens (http.Get (Header (mutate canonical_order
        {| AccessToken := "t"; RefreshToken := ""; Betas := ["a"; "b"];
           UserAgent := ""; UseBetaEndpoint := false |}
        {| Method := "POST";
           URL := {| url.Path := "/v1/messages"; url.RawQuery := "" |};
           Header := <["Anthropic-Beta" := ["x, a"]]> ∅ |})) "anthropic-beta")).
Proof.
  assert (Forall comma_free ["a"; "b"]) as Hf by (repeat constructor).
  assert (In "b" ["a"; "b"]) as Hb by (right; left; reflexivity).
  split; [exact Hf|split; [exact Hb|]].
  exact (configured_flags_present canonical_order
    {| AccessToken := "t"; RefreshToken := ""; Betas := ["a"; "b"];
       UserAgent := ""; UseBetaEndpoint := false |}
    {| Method := "POST";
       URL := {| url.Path := "/v1/messages"; url.RawQuery := "" |};
       Header := <["Anthropic-Beta" := ["x, a"]]> ∅ |} "b" Hf Hb).
Defined.

Lemma elem_of_flagTokens t betas :
  t ∈ flagTokens betas ↔ ∃ b, b ∈ betas ∧ t ∈ tokenSet b.
Proof.
  unfold flagTokens. rewrite elem_of_union_list. split.
  - intros (X & (b & -> & Hb)%list_elem_of_fmap & Ht). by exists b.
  - intros (b & Hb & Ht). exists (tokenSet b). split; [|done].
    apply list_elem_of_fmap. by exists b.
Qed.

Lemma tokenSet_merged_union o e betas :
  e ≠ "" → tokenSet (mergedBetas o e betas) = tokenSet e ∪ flagTokens betas.
Proof.
  intros He. apply set_eq. intros t.
  rewrite tokenSet_merged_nonempty by done.
  by rewrite elem_of_union, elem_of_flagTokens.
Qed.



(** X9: with an existing header value, the order and the repetition of
    the configured flags do not matter, nor does the iteration order of the
    set: two flag lists with the same elements give the same pieces, up to
    their order in the header. *)
Theorem flag_order_irrelevant (o o' : RangeOrder) (existingBetas : string)
    (betas betas' : list string) :
  existingBetas ≠ "" →
  Forall comma_free betas →
  (∀ b, In b betas ↔ In b betas') →
  Permutation (headerTokens (mergedBetas o existingBetas betas))
              (headerTokens (mergedBetas o' existingBetas betas')).
Proof.
  intros He Hf Hsame.
  assert (Forall comma_free betas') as Hf'.
  { apply Forall_forall. intros b Hb%list_elem_of_In%Hsame.
    by apply (proj1 (Forall_forall _ _) Hf), list_elem_of_In. }
  rewrite !headerTokens_merged by done.
  apply NoDup_Permutation; [apply allBetas_NoDup..|].
  intros t. rewrite !elem_of_allBetas, !list_elem_of_In.
  by rewrite (Hsame t).
Qed.

Lemma flag_order_irrelevant_witness :
  "x" ≠ "" ∧ Forall comma_free ["a"; "b"; "a"]
  ∧ (∀ b, In b ["a"; "b"; "a"] ↔ In b ["b"; "a"])
  ∧ Permutation (headerTokens (mergedBetas canonical_order "x" ["a"; "b"; "a"]))
                (headerTokens (mergedBetas canonical_order "x" ["b"; "a"])).
Proof.
  assert ("x" ≠ "") as He by discriminate.
  assert (Forall comma_free ["a"; "b"; "a"]) as Hf by (repeat constructor).
  assert (∀ b, In b ["a"; "b"; "a"] ↔ In b ["b"; "a"]) as Hs
    by (intros b; simpl; tauto).
  split; [exact He|split; [exact Hf|split; [exact Hs|]]].
  exact (flag_order_irrelevant canonical_order canonical_order "x"
           ["a"; "b"; "a"] ["b"; "a"] He Hf Hs).
Defined.

(** X11: two middlewares in sequence.  When the existing header value has
    a token that is not empty, the tokens of the header after two merges
    are the existing tokens with those of both flag lists, so the order in
    which the two merges run does not change the set of tokens. *)
Theorem two_merges_commute (o1 o2 o1' o2' : RangeOrder) (existingBetas : string)
    (betas1 betas2 : list string) (t : string) :
  In t (existingTokens existingBetas) → t ≠ "" →
  tokenSet (mergedBetas o2 (mergedBetas o1 existingBetas betas1) betas2)
  = tokenSet existingBetas ∪ flagTokens betas1 ∪ flagTokens betas2
  ∧ tokenSet (mergedBetas o2 (mergedBetas o1 existingBetas betas1) betas2)
    = tokenSet (mergedBetas o2' (mergedBetas o1' existingBetas betas2) betas1).
Proof.
  intros Ht Hne.
  assert (existingBetas ≠ "") as He.
  { intros ->. destruct Ht as [Ht|[]]. by apply Hne. }
  assert (∀ o betas, mergedBetas o existingBetas betas ≠ "") as Hmid.
  { intros o betas E.
    assert (t ∈ tokenSet (mergedBetas o existingBetas betas)) as Hin.
    { rewrite tokenSet_merged_union by done. apply elem_of_union_l.
      by apply elem_of_tokenSet, list_elem_of_In. }
    rewrite E, tokenSet_empty_string in Hin.
    by apply elem_of_singleton in Hin. }
  rewrite !tokenSet_merged_union by done. split; [done|set_solver].
Qed.

Lemma two_merges_commute_witness :
  In "x" (existingTokens " x ,") ∧ "x" ≠ ""
  ∧ tokenSet (mergedBetas canonical_order
                (mergedBetas canonical_order " x ," ["a"; "b"]) ["b"; "c"])
    = tokenSet (mergedBetas canonical_order
                  (mergedBetas canonical_order " x ," ["b"; "c"]) ["a"; "b"]).
Proof.
  assert (In "x" (existingTokens " x ,")) as Ht by (left; reflexivity).
  assert ("x" ≠ "") as Hne by discriminate.
  split; [exact Ht|split; [exact Hne|]].
  exact (proj2 (two_merges_commute canonical_order canonical_order
                  canonical_order canonical_order " x ," ["a"; "b"] ["b"; "c"]
                  "x" Ht Hne)).
Defined.

(** ** The query after the mutation *)

Lemma URL_mutate_false o cfg r :
  UseBetaEndpoint cfg = false → URL (mutate o cfg r) = URL r.
Proof.
  intros Hq. unfold mutate, setBetaQuery. rewrite Hq.
  by rewrite URL_setUserAgent, URL_setBetas.
Qed.

(** X10: for a request whose query has fewer than ten thousand pieces,
    running the middleware a second time does not change the URL again:
    the query it writes is already in the form it writes, and without
    [UseBetaEndpoint] the URL is not touched at all. *)
Theorem url_stable_on_second_pass (o1 o2 : RangeOrder) (cfg : Config)
    (r : Request) :
  (strings.Count (url.RawQuery (URL r)) "&" + 1 < url.maxQueryParams)%N →
  URL (mutate o2 cfg (mutate o1 cfg r)) = URL (mutate o1 cfg r).
Proof.
  intros Hlt. destruct (UseBetaEndpoint cfg) eqn:Hq.
  - rewrite (URL_mutate o2) by done. rewrite Path_mutate.
    rewrite Query_mutate by done. unfold url.Set_. rewrite insert_insert_eq.
    by rewrite (URL_mutate o1).
  - by rewrite (URL_mutate_false o2).
Qed.

Lemma url_stable_on_second_pass_witness :
  (strings.Count (url.RawQuery (URL (queryRequest "z=a b&beta=0&%zz=1"))) "&" + 1
   < url.maxQueryParams)%N
  ∧ URL (mutate canonical_order betaEndpointConfig
           (mutate canonical_order betaEndpointConfig
              (queryRequest "z=a b&beta=0&%zz=1")))
    = URL (mutate canonical_order betaEndpointConfig
             (queryRequest "z=a b&beta=0&%zz=1")).
Proof.
  assert (strings.Count (url.RawQuery (URL (queryRequest "z=a b&beta=0&%zz=1"))) "&" + 1
          < url.maxQueryParams)%N as Hlt by reflexivity.
  split; [exact Hlt|].
  exact (url_stable_on_second_pass canonical_order canonical_order
           betaEndpointConfig (queryRequest "z=a b&beta=0&%zz=1") Hlt).
Defined.

(** X12: with [UseBetaEndpoint], the raw query the successor sees is made
    of well-formed pairs only, each a key and a value escaped and joined by
    [=], and the text [beta=true] is one of them; every pair is [beta=true]
    or a value [URL.Query] read for that key in the request. *)
Theorem beta_pair_in_raw_query (o : RangeOrder) (cfg : Config) (r : Request) :
  UseBetaEndpoint cfg = true →
  In "beta=true" (strings.Split (url.RawQuery (URL (mutate o cfg r))) "&")
  ∧ (∀ p, In p (strings.Split (url.RawQuery (URL (mutate o cfg r))) "&") →
          ∃ key value,
            p = url.QueryEscape key +:+ "=" +:+ url.QueryEscape value
            ∧ ((key = "beta" ∧ value = "true")
               ∨ (key ≠ "beta"
                  ∧ In value (default [] (url.Query (URL r) !! key))))).
Proof.
  intros Hq. split; [by apply beta_pair_written|].
  rewrite URL_mutate by done. cbn [url.RawQuery]. intros p Hp.
  apply Split_Encode_inv in Hp as (key & value & -> & Hin).
  - exists key, value. split; [reflexivity|].
    unfold url.Set_ in Hin. rewrite lookup_insert in Hin.
    case_decide as Hk.
    + left. subst key. by destruct Hin as [<-|[]].
    + right. split; [congruence|done].
  - apply Set_wf, ParseQuery_wf.
  - apply insert_non_empty.
Qed.

Lemma beta_pair_in_raw_query_witness :
  UseBetaEndpoint betaEndpointConfig = true
  ∧ In "beta=true"
       (strings.Split (url.RawQuery (URL (mutate canonical_order betaEndpointConfig
          (queryRequest "z=a b&beta=0&%zz=1")))) "&").
Proof.
  split; [reflexivity|].
  exact (proj1 (beta_pair_in_raw_query canonical_order betaEndpointConfig
                  (queryRequest "z=a b&beta=0&%zz=1") eq_refl)).
Defined.

Example raw_query_normalised :
  url.RawQuery (URL (mutate canonical_order
     {| AccessToken := "t"; RefreshToken := ""; Betas := [];
        UserAgent := ""; UseBetaEndpoint := true |}
     {| Method := "POST";
        URL := {| url.Path := "/v1/messages";
                  url.RawQuery := "z=a b&beta=0&%zz=1" |};
        Header := ∅ |}))
  = "beta=true&z=a+b".
Proof. vm_compute. reflexivity. Qed.

(** ** The default flags on the wire *)

Lemma DefaultOAuthBetas_comma_free : Forall comma_free DefaultOAuthBetas.
Proof. repeat constructor. Qed.

(** X13: when the configuration names no flag, the middleware that
    [WithConfig] installs sends each of the four default flags as a piece
    of the [anthropic-beta] header, whatever the request held in that
    header before. *)
Theorem default_flags_always_sent (o : RangeOrder) (cfg : Config) (r : Request)
    (b : string) :
  Betas cfg = [] →
  In b DefaultOAuthBetas →
  In b (headerTokens
          (http.Get (Header (mutate o (withDefaultBetas cfg) r)) "anthropic-beta")).
Proof.
  intros Hb Hin.
  assert (Betas (withDefaultBetas cfg) = DefaultOAuthBetas) as E
    by (unfold withDefaultBetas; by rewrite Hb).
  apply flag_in_mutated_header; rewrite E;
    [apply DefaultOAuthBetas_comma_free|done].
Qed.

Lemma default_flags_always_sent_witness :
  Betas (tokenConfig "test-token") = []
  ∧ In "oauth-2025-04-20" DefaultOAuthBetas
  ∧ In "oauth-2025-04-20"
       (headerTokens (http.Get (Header (mutate canonical_order
          (withDefaultBetas (tokenConfig "test-token"))
          {| Method := "POST";
             URL := {| url.Path := "/v1/messages"; url.RawQuery := "" |};
             Header := <["Anthropic-Beta" := ["files-api-2025-04-14"]]> ∅ |}))
          "anthropic-beta")).
Proof.
  assert (In "oauth-2025-04-20" DefaultOAuthBetas) as Hin by (left; reflexivity).
  split; [reflexivity|split; [exact Hin|]].
  exact (default_flags_always_sent canonical_order (tokenConfig "test-token")
    {| Method := "POST";
       URL := {| url.Path := "/v1/messages"; url.RawQuery := "" |};
       Header := <["Anthropic-Beta" := ["files-api-2025-04-14"]]> ∅ |}
    "oauth-2025-04-20" eq_refl Hin).
Defined.
